(** * XLA GPU backend: lowering an HLO module to LLVM IR, and the nvJitLink
      device linker

    A shallow embedding of
    [xla/service/gpu/compile_module_to_llvm_ir.cc] and of the behaviour that
    [xla/stream_executor/cuda/nvjitlink_test.cc] exercises, together with the
    properties of the traversal of thunk trees, of the pruning of constant
    globals, of the signature verifier and of the linker.

    Conventions.  A C++ function that can fail in three ways is a function
    into [Outcome]: it returns a value, it returns a non-OK [absl::Status], or
    a [CHECK] fails and the process aborts.  An [llvm::Module] is the triple,
    the data layout and the table of its global variables, a finite map from
    symbol names; a global variable is its linkage and its users, and erasing
    a global drops the uses that its initializer held.  Logging, dumping,
    timers and metrics do not change any result and are left out. *)

From stdpp Require Import gmap strings list fin_maps.
From Stdlib Require Import ZArith Ascii DecimalString DecimalN.

Open Scope string_scope.
Open Scope list_scope.

(** ** Statuses and outcomes *)

(** The canonical codes of [absl::StatusCode]. *)
Inductive StatusCode : Set :=
| kOk | kCancelled | kUnknown | kInvalidArgument | kDeadlineExceeded
| kNotFound | kAlreadyExists | kPermissionDenied | kResourceExhausted
| kFailedPrecondition | kAborted | kOutOfRange | kUnimplemented | kInternal
| kUnavailable | kDataLoss | kUnauthenticated.

Record Status : Set := MkStatus { code : StatusCode; message : string }.

Inductive Outcome (A : Type) : Type :=
| Ok (a : A)
| Error (st : Status)
| CheckFailure.

Arguments Ok {A} a.
Arguments Error {A} st.
Arguments CheckFailure {A}.

#[export] Instance Outcome_ret : MRet Outcome := fun A a => Ok a.

#[export] Instance Outcome_bind : MBind Outcome := fun A B k o =>
  match o with
  | Ok a => k a
  | Error st => Error st
  | CheckFailure => CheckFailure
  end.

(** An [absl::StatusOr] is a value or a status. *)
Definition of_StatusOr {A} (value_or : A + Status) : Outcome A :=
  match value_or with inl a => Ok a | inr st => Error st end.

Definition is_ok {A} (o : Outcome A) : bool :=
  match o with Ok _ => true | _ => false end.

Definition is_error {A} (o : Outcome A) : bool :=
  match o with Error _ => true | _ => false end.

(** ** LLVM modules and constants *)

(** A user of a global variable: another global variable, whose initializer
    is this one, or anything else, an instruction of a kernel or a constant
    expression. *)
Inductive User : Set :=
| InitializerOf (name : string)
| OtherUser (id : string).

#[export] Instance User_eq_dec : EqDecision User.
Proof. solve_decision. Defined.

(** A global variable, as far as this file looks at it: whether its linkage
    is local, and the list of its users.  [use_empty] is
    [llvm::Value::use_empty]. *)
Record GlobalVariable : Set := MkGlobal {
  hasLocalLinkage : bool;
  users : list User
}.

Definition use_empty (global : GlobalVariable) : bool :=
  match users global with [] => true | _ :: _ => false end.

Record LlvmModule : Type := MkModule {
  target_triple : string;
  data_layout : string;
  globals : gmap string GlobalVariable
}.

(** [llvm::Module::getGlobalVariable(Name)], that is with [AllowInternal]
    false: [None] is the null pointer, returned when the module has no global
    variable of that name and when the one it has is of local linkage. *)
Definition getGlobalVariable (m : LlvmModule) (name : string)
  : option GlobalVariable :=
  match globals m !! name with
  | Some global => if hasLocalLinkage global then None else Some global
  | None => None
  end.

(** What erasing the global [name] does to another global: the use that the
    initializer of [name] made of it is dropped. *)
Definition drop_uses_of (name : string) (global : GlobalVariable)
  : GlobalVariable :=
  MkGlobal (hasLocalLinkage global)
    (filter (λ user, user ≠ InitializerOf name) (users global)).

(** [global->eraseFromParent()] for the global named [name]: it leaves the
    module, and with it the uses it held. *)
Definition eraseFromParent (name : string) (m : LlvmModule) : LlvmModule :=
  MkModule (target_triple m) (data_layout m)
    (drop_uses_of name <$> delete name (globals m)).

(** [llvm::Module::setTargetTriple] and [llvm::Module::setDataLayout].  The
    description of the data layout is parsed, and one that does not parse is
    a fatal error; [parses] is the parser of LLVM, declared outside this
    file. *)
Definition setTargetTriple (triple : string) (m : LlvmModule) : LlvmModule :=
  MkModule triple (data_layout m) (globals m).

Definition setDataLayout (parses : string → bool) (description : string)
    (m : LlvmModule) : Outcome LlvmModule :=
  if parses description
  then Ok (MkModule (target_triple m) description (globals m))
  else CheckFailure.

(** [GpuExecutable::ConstantInfo]; [content] is [content.span()]. *)
Record ConstantInfo : Set := MkConstantInfo {
  symbol_name : string;
  content : list Byte.byte;
  allocation_index : Z
}.

Definition span_empty (bytes : list Byte.byte) : bool :=
  match bytes with [] => true | _ :: _ => false end.

(** [RemoveUnusedAndUninitializedGlobals] (lines 331-346).  The loop over
    [constants] is the recursion; [CHECK(global != nullptr)] is the
    [CheckFailure] branch. *)
Fixpoint RemoveUnusedAndUninitializedGlobals
    (llvm_module : LlvmModule) (constants : list ConstantInfo)
  : Outcome LlvmModule :=
  match constants with
  | [] => Ok llvm_module
  | info :: rest =>
      if negb (span_empty (content info)) then
        match getGlobalVariable llvm_module (symbol_name info) with
        | None => CheckFailure
        | Some global =>
            if use_empty global then
              RemoveUnusedAndUninitializedGlobals
                (eraseFromParent (symbol_name info) llvm_module) rest
            else RemoveUnusedAndUninitializedGlobals llvm_module rest
        end
      else RemoveUnusedAndUninitializedGlobals llvm_module rest
  end.

(** The globals that are erasable in [m], read off the constant list: those
    named by a constant with non-empty content whose global
    [getGlobalVariable] finds in [m] with no use. *)
Definition erased_by (m : LlvmModule) (constants : list ConstantInfo)
    (name : string) : bool :=
  existsb (fun info =>
             negb (span_empty (content info))
             && bool_decide (symbol_name info = name)
             && match getGlobalVariable m name with
                | Some global => use_empty global
                | None => false
                end) constants.

(** The use that [erased] globals made of a global, dropped. *)
Definition kept_user (erased : string → bool) (user : User) : bool :=
  match user with
  | InitializerOf name => negb (erased name)
  | OtherUser _ => true
  end.

Definition drop_uses_where (erased : string → bool) (global : GlobalVariable)
  : GlobalVariable :=
  MkGlobal (hasLocalLinkage global)
    (filter (λ user, kept_user erased user = true) (users global)).

(** No global of a constant of the list is used by the initializer of the
    global of a constant of the list. *)
Definition independent_globals (m : LlvmModule)
    (constants : list ConstantInfo) : bool :=
  forallb (λ info,
    match globals m !! symbol_name info with
    | Some global =>
        forallb (λ info',
          bool_decide (InitializerOf (symbol_name info') ∉ users global))
          constants
    | None => true
    end) constants.

(** ** Thunk trees *)

(** A thunk is a [ConditionalThunk], a [SequentialThunk], a [WhileThunk], or
    a thunk of any other kind, which carries device work and no children: a
    kernel launch, a copy, a library call.  [Op] is what such a thunk holds.
    A [ThunkSequence] is a list of thunks; the [SequentialThunk] roots of the
    branches of a conditional and of the condition and the body of a loop are
    given by their [thunks()]. *)
Unset Elimination Schemes.
Inductive Thunk (Op : Type) : Type :=
| LeafThunk (op : Op)
| SequentialThunk (thunks : list (Thunk Op))
| ConditionalThunk (branch_thunks : list (list (Thunk Op)))
| WhileThunk (condition_thunk_sequence body_thunk_sequence : list (Thunk Op)).
Set Elimination Schemes.

Arguments LeafThunk {Op} op.
Arguments SequentialThunk {Op} thunks.
Arguments ConditionalThunk {Op} branch_thunks.
Arguments WhileThunk {Op} condition_thunk_sequence body_thunk_sequence.

(** [Thunk::Kind], with every kind but the three that [ForAllThunks] tests
    for gathered in [kOther]. *)
Inductive Kind : Set := kConditional | kSequential | kWhile | kOther.

Definition kind {Op} (thunk : Thunk Op) : Kind :=
  match thunk with
  | LeafThunk _ => kOther
  | SequentialThunk _ => kSequential
  | ConditionalThunk _ => kConditional
  | WhileThunk _ _ => kWhile
  end.

(** Induction over thunk trees, with the children of a node under [Forall]. *)
Section Thunk_induction.
Context {Op : Type} (P : Thunk Op → Prop).
Hypothesis P_leaf : ∀ op, P (LeafThunk op).
Hypothesis P_sequential : ∀ ts, Forall P ts → P (SequentialThunk ts).
Hypothesis P_conditional :
  ∀ bs, Forall (Forall P) bs → P (ConditionalThunk bs).
Hypothesis P_while :
  ∀ c b, Forall P c → Forall P b → P (WhileThunk c b).

Fixpoint Thunk_ind (thunk : Thunk Op) : P thunk :=
  let fix all (ts : list (Thunk Op)) : Forall P ts :=
    match ts with
    | [] => Forall_nil_2 P
    | t :: rest => Forall_cons_2 P t rest (Thunk_ind t) (all rest)
    end in
  match thunk with
  | LeafThunk op => P_leaf op
  | SequentialThunk ts => P_sequential ts (all ts)
  | ConditionalThunk bs =>
      P_conditional bs
        ((fix each (bs : list (list (Thunk Op))) : Forall (Forall P) bs :=
            match bs with
            | [] => Forall_nil_2 (Forall P)
            | b :: rest => Forall_cons_2 (Forall P) b rest (all b) (each rest)
            end) bs)
  | WhileThunk c b => P_while c b (all c) (all b)
  end.
End Thunk_induction.

(** [ForAllThunks] (lines 149-170).  The action [fn] receives a pointer to
    the thunk and may write to it and to anything it captured: here it maps
    the thunk and the state of the rest of the world to the thunk as it leaves
    it and the new state.  [ForAllThunks_body] is the body of the [for] loop,
    with the recursive calls on the sequences below the thunk written as its
    local loops; [ForAllThunks] is the loop over a sequence and
    [ForAllThunks_branches] the loop over the branches of a conditional, the
    same two loops by name (the equations [ForAllThunks_body_sequential],
    [ForAllThunks_body_conditional] and [ForAllThunks_body_while]). *)
Section ForAllThunks.
Context {Op St : Type} (fn : Thunk Op → St → Thunk Op * St).

Fixpoint ForAllThunks_body (thunk : Thunk Op) (s : St) {struct thunk}
  : Thunk Op * St :=
  let fix sequence (ts : list (Thunk Op)) (s : St) {struct ts}
    : list (Thunk Op) * St :=
    match ts with
    | [] => ([], s)
    | t :: rest =>
        let '(t', s1) := ForAllThunks_body t s in
        let '(rest', s2) := sequence rest s1 in
        (t' :: rest', s2)
    end in
  match thunk with
  | ConditionalThunk branch_thunks =>
      let fix branches (bs : list (list (Thunk Op))) (s : St) {struct bs}
        : list (list (Thunk Op)) * St :=
        match bs with
        | [] => ([], s)
        | b :: rest =>
            let '(b', s1) := sequence b s in
            let '(rest', s2) := branches rest s1 in
            (b' :: rest', s2)
        end in
      let '(bs', s') := branches branch_thunks s in
      (ConditionalThunk bs', s')
  | SequentialThunk thunks =>
      let '(ts', s') := sequence thunks s in
      (SequentialThunk ts', s')
  | WhileThunk condition body =>
      let '(c', s1) := sequence condition s in
      let '(b', s2) := sequence body s1 in
      (WhileThunk c' b', s2)
  | LeafThunk _ => fn thunk s
  end.

Fixpoint ForAllThunks (thunk_sequence : list (Thunk Op)) (s : St)
  : list (Thunk Op) * St :=
  match thunk_sequence with
  | [] => ([], s)
  | t :: rest =>
      let '(t', s1) := ForAllThunks_body t s in
      let '(rest', s2) := ForAllThunks rest s1 in
      (t' :: rest', s2)
  end.

Fixpoint ForAllThunks_branches (bs : list (list (Thunk Op))) (s : St)
  : list (list (Thunk Op)) * St :=
  match bs with
  | [] => ([], s)
  | b :: rest =>
      let '(b', s1) := ForAllThunks b s in
      let '(rest', s2) := ForAllThunks_branches rest s1 in
      (b' :: rest', s2)
  end.
End ForAllThunks.

(** The leaves of a tree in tree order: children left to right, the branches
    of a conditional in branch order, the condition of a loop before its
    body. *)
Fixpoint leaves_of {Op} (thunk : Thunk Op) : list (Thunk Op) :=
  match thunk with
  | LeafThunk _ => [thunk]
  | SequentialThunk ts => concat (map leaves_of ts)
  | ConditionalThunk bs =>
      concat (map (fun b => concat (map leaves_of b)) bs)
  | WhileThunk c b => concat (map leaves_of c) ++ concat (map leaves_of b)
  end.

Definition leaves {Op} (thunk_sequence : list (Thunk Op)) : list (Thunk Op) :=
  concat (map leaves_of thunk_sequence).

(** The number of leaves of a tree, counted without listing them. *)
Fixpoint num_leaves_of {Op} (thunk : Thunk Op) : nat :=
  match thunk with
  | LeafThunk _ => 1
  | SequentialThunk ts => sum_list (map num_leaves_of ts)
  | ConditionalThunk bs =>
      sum_list (map (fun b => sum_list (map num_leaves_of b)) bs)
  | WhileThunk c b =>
      sum_list (map num_leaves_of c) + sum_list (map num_leaves_of b)
  end.

Definition num_leaves {Op} (thunk_sequence : list (Thunk Op)) : nat :=
  sum_list (map num_leaves_of thunk_sequence).

Definition is_leaf {Op} (thunk : Thunk Op) : Prop := kind thunk = kOther.

(** [occurs leaf thunk]: [leaf] is a leaf found in [thunk], at any depth. *)
Inductive occurs {Op} (leaf : Thunk Op) : Thunk Op → Prop :=
| occurs_here op :
    leaf = LeafThunk op → occurs leaf (LeafThunk op)
| occurs_in_sequence ts t :
    t ∈ ts → occurs leaf t → occurs leaf (SequentialThunk ts)
| occurs_in_branch bs b t :
    b ∈ bs → t ∈ b → occurs leaf t → occurs leaf (ConditionalThunk bs)
| occurs_in_condition c b t :
    t ∈ c → occurs leaf t → occurs leaf (WhileThunk c b)
| occurs_in_body c b t :
    t ∈ b → occurs leaf t → occurs leaf (WhileThunk c b).

(** One invocation of the action, as a step on the state outside the tree. *)
Definition invoke {Op St} (fn : Thunk Op → St → Thunk Op * St)
    (s : St) (thunk : Thunk Op) : St := (fn thunk s).2.

(** Actions that observe: one appends the thunk it is given to a trace, one
    counts its invocations. *)
Definition record_thunk {Op} (thunk : Thunk Op) (trace : list (Thunk Op))
  : Thunk Op * list (Thunk Op) := (thunk, trace ++ [thunk]).

Definition count_call {Op} (thunk : Thunk Op) (calls : nat)
  : Thunk Op * nat := (thunk, S calls).

(** The thunk sequence with its leaves rewritten by [f], which is given the
    position of the leaf in tree order, counted from [i], and the leaf; every
    other node is as it was. *)
Section imap_leaves.
Context {Op : Type} (f : nat → Thunk Op → Thunk Op).

Fixpoint imap_leaf (i : nat) (thunk : Thunk Op) {struct thunk} : Thunk Op :=
  let fix sequence (i : nat) (ts : list (Thunk Op)) {struct ts}
    : list (Thunk Op) :=
    match ts with
    | [] => []
    | t :: rest =>
        imap_leaf i t :: sequence (i + length (leaves_of t))%nat rest
    end in
  match thunk with
  | LeafThunk _ => f i thunk
  | SequentialThunk ts => SequentialThunk (sequence i ts)
  | ConditionalThunk bs =>
      ConditionalThunk
        ((fix branches (i : nat) (bs : list (list (Thunk Op))) {struct bs}
            : list (list (Thunk Op)) :=
            match bs with
            | [] => []
            | b :: rest =>
                sequence i b :: branches (i + length (leaves b))%nat rest
            end) i bs)
  | WhileThunk c b =>
      WhileThunk (sequence i c) (sequence (i + length (leaves c))%nat b)
  end.

Fixpoint imap_leaves (i : nat) (thunk_sequence : list (Thunk Op))
  : list (Thunk Op) :=
  match thunk_sequence with
  | [] => []
  | t :: rest =>
      imap_leaf i t :: imap_leaves (i + length (leaves_of t))%nat rest
  end.

Fixpoint imap_branches (i : nat) (bs : list (list (Thunk Op)))
  : list (list (Thunk Op)) :=
  match bs with
  | [] => []
  | b :: rest =>
      imap_leaves i b :: imap_branches (i + length (leaves b))%nat rest
  end.
End imap_leaves.

(** What the action writes to the leaf at position [i] of the leaves [all],
    when it is invoked on the leaves before it in their order, from the state
    [s]. *)
Definition rewritten {Op St} (fn : Thunk Op → St → Thunk Op * St) (s : St)
    (all : list (Thunk Op)) (i : nat) (leaf : Thunk Op) : Thunk Op :=
  (fn leaf (foldl (invoke fn) s (take i all))).1.

(** An action that numbers the thunks it is given. *)
Definition number_thunk (thunk : Thunk nat) (next : nat) : Thunk nat * nat :=
  (LeafThunk next, S next).

(** ** The signature verifier *)

(** An entry function as [GetMlirAllocationInfo] reads it: per argument, its
    type and its named attributes.  A type is a shaped type, with an element
    type and a number of elements, or it is not. *)
Inductive MlirType (ElementType : Type) : Type :=
| ShapedType (element_type : ElementType) (num_elements : Z)
| UnshapedType.

Arguments ShapedType {ElementType} element_type num_elements.
Arguments UnshapedType {ElementType}.

Record NamedAttribute : Set := MkAttr { getName : string; getValue : string }.

Record BlockArgument (ElementType : Type) : Type := MkArg {
  getType : MlirType ElementType;
  getArgAttrs : list NamedAttribute
}.

Arguments MkArg {ElementType} getType getArgAttrs.
Arguments getType {ElementType} b.
Arguments getArgAttrs {ElementType} b.

Record FuncOp (ElementType : Type) : Type := MkFunc {
  getArguments : list (BlockArgument ElementType)
}.

Arguments MkFunc {ElementType} getArguments.
Arguments getArguments {ElementType} f.

(** The condition of the [TF_RET_CHECK] of lines 209-213. *)
Definition known_arg_attr (name : string) : bool :=
  String.eqb name "lmhlo.params"
  || String.eqb name "lmhlo.param_shape_index"
  || String.eqb name "lmhlo.constant_name"
  || String.eqb name "lmhlo.must_alias"
  || String.eqb name "lmhlo.output_index".

Definition known_arg_attr_text : string :=
  "attr.getName() == lmhlo.params || lmhlo.param_shape_index || lmhlo.constant_name || lmhlo.must_alias || lmhlo.output_index".

(** The value an [int64_t] has of an integer, by two's complement, and the
    value a [size_t] of 64 bits has of it. *)
Definition to_int64 (z : Z) : Z := ((z + 2 ^ 63) mod 2 ^ 64 - 2 ^ 63)%Z.

Definition to_size_t (z : Z) : Z := (z mod 2 ^ 64)%Z.

(** Lines 201 and 202: the product is taken in [int64_t], held in a
    [size_t] and pushed on a vector of [int64_t]. *)
Definition buffer_size (num_elements element_type_bytes : Z) : Z :=
  to_int64 (to_size_t (to_int64 (num_elements * element_type_bytes))).

Section GetMlirAllocationInfo.
Context {ElementType BufferAllocation Allocated : Type}.

(** Declared outside this file: the byte size of an element type
    ([GetElementTypeBytes]), the status a failed [TF_RET_CHECK] makes from the
    text of its condition, and [GpuExecutable::SetUpMlirAllocation], whose
    outputs are gathered in [Allocated].  [GetElementTypeBytes] returns an
    [absl::StatusOr]. *)
Variable GetElementTypeBytes : ElementType → Z + Status.
Variable ret_check_failure : string → Status.
Variable SetUpMlirAllocation :
  FuncOp ElementType → list Z → Outcome Allocated.

Definition TF_RET_CHECK (condition : bool) (text : string) : Outcome unit :=
  if condition then Ok tt else Error (ret_check_failure text).

(** The first loop (lines 194-203): one size per argument, in order; an
    argument whose type is not shaped fails the [TF_RET_CHECK] of line 197. *)
Fixpoint buffer_sizes_of (args : list (BlockArgument ElementType))
  : Outcome (list Z) :=
  match args with
  | [] => Ok []
  | arg :: rest =>
      match getType arg with
      | UnshapedType =>
          Error (ret_check_failure "arg.getType().isa<mlir::ShapedType>()")
      | ShapedType element_type num_elements =>
          element_type_bytes ← of_StatusOr (GetElementTypeBytes element_type);
          sizes ← buffer_sizes_of rest;
          Ok (buffer_size num_elements element_type_bytes :: sizes)
      end
  end.

(** The inner loop of the second pair of loops (lines 208-214). *)
Fixpoint verify_attrs (attrs : list NamedAttribute) : Outcome unit :=
  match attrs with
  | [] => Ok tt
  | attr :: rest =>
      _ ← TF_RET_CHECK (known_arg_attr (getName attr)) known_arg_attr_text;
      verify_attrs rest
  end.

(** The outer loop (lines 205-215). *)
Fixpoint verify_arg_attrs (args : list (BlockArgument ElementType))
  : Outcome unit :=
  match args with
  | [] => Ok tt
  | arg :: rest => _ ← verify_attrs (getArgAttrs arg); verify_arg_attrs rest
  end.

(** [GetMlirAllocationInfo] (lines 186-219). *)
Definition GetMlirAllocationInfo (func : FuncOp ElementType)
    (allocations : list BufferAllocation) : Outcome Allocated :=
  match allocations with
  | _ :: _ => CheckFailure
  | [] =>
      buffer_sizes ← buffer_sizes_of (getArguments func);
      _ ← verify_arg_attrs (getArguments func);
      SetUpMlirAllocation func buffer_sizes
  end.
End GetMlirAllocationInfo.

(** Some argument of [func] carries an attribute whose name is none of the
    five. *)
Definition has_unknown_arg_attr {ElementType} (func : FuncOp ElementType)
  : Prop :=
  ∃ arg attr, arg ∈ getArguments func ∧ attr ∈ getArgAttrs arg
              ∧ known_arg_attr (getName attr) = false.

(** ** The compilation *)

Record DebugOptions : Set := MkDebugOptions {
  xla_gpu_enable_nccl_user_buffers : bool;
  xla_gpu_enable_shared_constants : bool
}.

(** The two colorers the compilation chooses between. *)
Inductive Colorer : Set := CollectiveColorer | DefaultColorer.

(** [LogicalBuffer::Color] is a 64-bit integer. *)
Definition Color : Set := Z.

Section CompileModuleToLlvmIr.
Context {Shape HloComputation BufferAssignment OutputInfo Op PlatformId : Type}.
Context `{EqDecision PlatformId}.

Record HloModule : Type := MkHloModule {
  name : string;
  debug_options : DebugOptions;
  result_shape : Shape;
  entry_computation : HloComputation
}.

(** What [IrEmitterContext] holds of interest here: the module being built
    and the constants emitted so far. *)
Record IrEmitterContext : Type := MkContext {
  hlo_module : HloModule;
  buffer_assignment : BufferAssignment;
  platform_name : string;
  llvm_module : LlvmModule;
  constants : list ConstantInfo
}.

Record CompileModuleResults : Type := MkResults {
  results_llvm_module : LlvmModule;
  results_buffer_assignment : BufferAssignment;
  results_executable : list (Thunk Op);
  results_constants : list ConstantInfo;
  results_output_info : OutputInfo;
  results_output_shape : Shape;
  results_module_name : string;
  results_use_original_allocations : bool
}.

(** Declared outside this file: the alignment constant, the platform
    identifier of ROCm, the buffer assigner, [GetOutputInfo], the emitter
    (which returns a status and leaves the context and its thunk sequence
    changed) and [Thunk::ClearCompileTimeInfo].  The ordering, the size
    function, [must_not_live_out] and [can_share_buffer_function] reach the
    assigner unchanged and are part of [BufferAssigner_Run] here; its other
    arguments are the ones the compilation chooses. *)
Variable kXlaAllocatedBufferAlignBytes : Z.
Variable kROCmPlatformId : PlatformId.
Variable BufferAssigner_Run :
  HloModule → (Color → Z) → bool → Colorer → Outcome BufferAssignment.
Variable GetOutputInfo : HloModule → BufferAssignment → Outcome OutputInfo.
Variable EmitHloComputation :
  IrEmitterContext → HloComputation
  → Outcome (IrEmitterContext * list (Thunk Op)).
Variable ClearCompileTimeInfo : Thunk Op → Thunk Op.

(** The lambda of line 242. *)
Definition color_alignment (color : Color) : Z :=
  kXlaAllocatedBufferAlignBytes.

(** The condition of lines 302-305. *)
Definition supports_runtime_managed_constants
    (platform_id : PlatformId) (module : HloModule) : bool :=
  bool_decide (platform_id ≠ kROCmPlatformId)
  && xla_gpu_enable_shared_constants (debug_options module).

(** The lambda of line 322; it writes to the thunk only. *)
Definition clear_compile_time_info (thunk : Thunk Op) (s : unit)
  : Thunk Op * unit := (ClearCompileTimeInfo thunk, s).

(** [CompileModuleToLlvmIr] (lines 223-327), once the module of the results
    has taken the triple and the data layout (lines 231-233, see
    [CompileModuleToLlvmIr_from_entry] below). *)
Definition CompileModuleToLlvmIr (module : HloModule)
    (target_triple data_layout platform_name : string)
    (platform_id : PlatformId) : Outcome CompileModuleResults :=
  let empty_module := MkModule target_triple data_layout ∅ in
  assignment ← BufferAssigner_Run module color_alignment true
    (if xla_gpu_enable_nccl_user_buffers (debug_options module)
     then CollectiveColorer else DefaultColorer);
  let ir_emitter_context :=
    MkContext module assignment platform_name empty_module [] in
  output_info ← GetOutputInfo module assignment;
  '(ir_emitter_context, thunk_sequence) ←
    EmitHloComputation ir_emitter_context (entry_computation module);
  pruned_module ←
    (if supports_runtime_managed_constants platform_id module
     then RemoveUnusedAndUninitializedGlobals
            (llvm_module ir_emitter_context) (constants ir_emitter_context)
     else Ok (llvm_module ir_emitter_context));
  let executable := (ForAllThunks clear_compile_time_info thunk_sequence tt).1 in
  Ok {| results_llvm_module := pruned_module;
        results_buffer_assignment := assignment;
        results_executable := executable;
        results_constants := constants ir_emitter_context;
        results_output_info := output_info;
        results_output_shape := result_shape module;
        results_module_name := name module;
        results_use_original_allocations := true |}.

(** Lines 231-233 in front of the rest.  The module of the results is made
    and given the triple and the data layout before anything else is done,
    and [setDataLayout] ends the process on a description that LLVM does not
    parse; [CompileModuleToLlvmIr] above is the function from line 235 on,
    with the triple and the data layout that the module has by then. *)
Variable parses_data_layout : string → bool.

Definition CompileModuleToLlvmIr_from_entry (module : HloModule)
    (target_triple data_layout platform_name : string)
    (platform_id : PlatformId) : Outcome CompileModuleResults :=
  new_module ←
    setDataLayout parses_data_layout data_layout
      (setTargetTriple target_triple (MkModule "" "" ∅));
  match new_module with
  | MkModule triple layout _ =>
      CompileModuleToLlvmIr module triple layout platform_name platform_id
  end.
End CompileModuleToLlvmIr.

Arguments HloModule : clear implicits.
Arguments IrEmitterContext : clear implicits.
Arguments CompileModuleResults : clear implicits.

(** ** The device linker *)

(** [stream_executor::CudaComputeCapability]. *)
Record CudaComputeCapability : Set := MkCapability { major : Z; minor : Z }.

(** Modelled from the spec: the order of capabilities, by major version, then
    by minor version. *)
Definition capability_ltb (a b : CudaComputeCapability) : bool :=
  (major a <? major b)%Z || ((major a =? major b)%Z && (minor a <? minor b)%Z).

(** [NvJitLinkInput::Type]; the tests use [kPtx] only. *)
Inductive NvJitLinkInputType : Set := kPtx | kCubin.

(** Modelled from the spec: a device-code unit ([NvJitLinkInput] of
    [nvjitlink.h]), by what the toolchain makes of its bytes: the symbols it
    defines, the symbols it refers to, and whether compiling it spills
    registers, with optimizations disabled ([true]) and enabled ([false]). *)
Record NvJitLinkInput : Type := MkInput {
  input_type : NvJitLinkInputType;
  defined_symbols : list string;
  referenced_symbols : list string;
  spills_registers : bool → bool
}.

(** Modelled from the spec: the options of a link request (section 3); the
    test passes them as [GpuAsmOpts] and a flag. *)
Record LinkOptions : Set := MkLinkOptions {
  disableOptimizations : bool;
  cancelOnRegisterSpill : bool
}.

(** Modelled from the spec: the errors of a link request (section 7). *)
Inductive LinkError : Set :=
| UnsupportedArchitecture
| UnresolvedSymbol
| RegisterSpillCancelled
| InternalToolchainError.

(** Modelled from the spec: the linked image, by its architecture and the
    symbols it defines. *)
Record Binary : Set := MkBinary {
  binary_capability : CudaComputeCapability;
  binary_symbols : list string
}.

(** Modelled from the spec: a link request that has ended, by the units the
    toolchain compiled, in order, and the binary or the error. *)
Record LinkRun : Type := MkLinkRun {
  compiled_units : list NvJitLinkInput;
  link_result : Binary + LinkError
}.

(** Modelled from the spec: the architecture test of [CompileAndLink], whose
    implementation (behind [nvjitlink.h]) is not among the sources.  The
    capability exceeds every architecture the toolchain supports. *)
Definition exceeds_every_architecture
    (supported : list CudaComputeCapability)
    (targetCapability : CudaComputeCapability) : bool :=
  forallb (fun architecture => capability_ltb architecture targetCapability)
          supported.

(** Modelled from the spec: a unit ends the request when cancellation is
    asked for and compiling it, under the options, spills registers. *)
Definition cancels (options : LinkOptions) (input : NvJitLinkInput) : bool :=
  cancelOnRegisterSpill options
  && spills_registers input (disableOptimizations options).

(** Modelled from the spec: the compile phase of [CompileAndLink].  The units
    are compiled one by one; with [cancelOnRegisterSpill] set, the first unit
    that spills ends the request.  The result is the units compiled and
    whether the request was cancelled. *)
Fixpoint compile_units (options : LinkOptions) (units : list NvJitLinkInput)
  : list NvJitLinkInput * bool :=
  match units with
  | [] => ([], false)
  | input :: rest =>
      if cancels options input then ([input], true)
      else let '(done, cancelled) := compile_units options rest in
           (input :: done, cancelled)
  end.

(** Modelled from the spec: the symbols a batch of units defines. *)
Definition batch_symbols (units : list NvJitLinkInput) : list string :=
  concat (map defined_symbols units).

(** Modelled from the spec: the link-time test that every symbol a unit
    refers to is defined by itself or by another unit of the batch. *)
Definition symbols_resolved (units : list NvJitLinkInput) : bool :=
  forallb (fun input =>
             forallb (fun symbol => bool_decide (symbol ∈ batch_symbols units))
                     (referenced_symbols input)) units.

(** Modelled from the spec: [CompileAndLink] of the device linker (section
    4.5), the function [CompileAndLinkUsingLibNvJitLink] declared in
    [nvjitlink.h], whose implementation is not among the sources; [supported]
    is the list of architectures of the toolchain.  The architecture test comes
    before any compilation, spilling is met while compiling, unresolved
    symbols when linking. *)
Definition CompileAndLink (supported : list CudaComputeCapability)
    (targetCapability : CudaComputeCapability)
    (units : list NvJitLinkInput) (options : LinkOptions) : LinkRun :=
  if exceeds_every_architecture supported targetCapability
  then MkLinkRun [] (inr UnsupportedArchitecture)
  else
    let '(done, cancelled) := compile_units options units in
    if cancelled then MkLinkRun done (inr RegisterSpillCancelled)
    else if symbols_resolved units
    then MkLinkRun done (inl (MkBinary targetCapability (batch_symbols units)))
    else MkLinkRun done (inr UnresolvedSymbol).

(** Modelled from the spec: the status codes of the errors of
    [CompileAndLinkUsingLibNvJitLink], as the tests of [nvjitlink_test.cc]
    expect them. *)
Definition status_code_of (error : LinkError) : StatusCode :=
  match error with
  | UnsupportedArchitecture => kUnimplemented
  | UnresolvedSymbol => kUnknown
  | RegisterSpillCancelled => kCancelled
  | InternalToolchainError => kInternal
  end.

Definition StatusIs (result : Binary + LinkError) (expected : StatusCode)
  : Prop :=
  match result with
  | inl _ => expected = kOk
  | inr error => expected = status_code_of error
  end.

(** [CompileAndLinkHelper] of the test (lines 130-148): every input is PTX and
    the two flags are passed on. *)
Definition CompileAndLinkHelper (supported : list CudaComputeCapability)
    (cc : CudaComputeCapability) (ptx_inputs : list NvJitLinkInput)
    (disable_gpuasm_optimizations cancel_if_reg_spill : bool)
  : Binary + LinkError :=
  let inputs :=
    map (fun ptx_input =>
           MkInput kPtx (defined_symbols ptx_input)
             (referenced_symbols ptx_input) (spills_registers ptx_input))
        ptx_inputs in
  link_result
    (CompileAndLink supported cc inputs
       (MkLinkOptions disable_gpuasm_optimizations cancel_if_reg_spill)).

(** The PTX programs of the test, and its default capability. *)
Definition kDependeePtx : NvJitLinkInput :=
  MkInput kPtx ["_Z5magicv"] [] (fun _ => false).

Definition kDependentPtx : NvJitLinkInput :=
  MkInput kPtx ["_Z6kernelPi"] ["_Z5magicv"] (fun _ => false).

Definition kStandalonePtx : NvJitLinkInput :=
  MkInput kPtx ["_Z6kernelPi"] [] (fun _ => false).

(** [kDependentPtx] with the directive [.maxnreg 16] put in: it spills unless
    the optimizer removes its register usage. *)
Definition dependent_ptx_maxnreg : NvJitLinkInput :=
  MkInput kPtx ["_Z6kernelPi"] ["_Z5magicv"]
    (fun disable_gpuasm_optimizations => disable_gpuasm_optimizations).

Definition kDefaultComputeCapability : CudaComputeCapability :=
  MkCapability 5 2.

(** The architectures of a CUDA 12 toolchain. *)
Definition cuda_12_architectures : list CudaComputeCapability :=
  [MkCapability 5 0; MkCapability 5 2; MkCapability 5 3; MkCapability 6 0;
   MkCapability 6 1; MkCapability 6 2; MkCapability 7 0; MkCapability 7 2;
   MkCapability 7 5; MkCapability 8 0; MkCapability 8 6; MkCapability 8 7;
   MkCapability 8 9; MkCapability 9 0].

(** A module after emission with two constants' globals, neither of them
    used by any instruction: the first constant carries its bytes with it, the
    second does not. *)
Definition unused_global : GlobalVariable := MkGlobal false [].

Definition emitted_module : LlvmModule :=
  MkModule "nvptx64-nvidia-cuda" "e-i64:64-i128:128-v16:16-v32:32-n16:32:64"
    (<["buffer_for_constant_1" := unused_global]>
       (<["buffer_for_constant_2" := unused_global]> ∅)).

Definition constant_1 : ConstantInfo :=
  MkConstantInfo "buffer_for_constant_1" [Byte.x2a; Byte.x00] 0%Z.

Definition constant_2 : ConstantInfo :=
  MkConstantInfo "buffer_for_constant_2" [] 1%Z.

Definition constant_3 : ConstantInfo :=
  MkConstantInfo "buffer_for_constant_3" [Byte.x01] 2%Z.

(** A module where a kernel reads the global of a fourth constant, and where
    the initializer of the first constant's global refers to a table of local
    linkage that a kernel reads too. *)
Definition used_global : GlobalVariable :=
  MkGlobal false [OtherUser "fusion_kernel"].

Definition lookup_table : GlobalVariable :=
  MkGlobal true [InitializerOf "buffer_for_constant_1";
                 OtherUser "fusion_kernel"].

Definition linked_module : LlvmModule :=
  MkModule "nvptx64-nvidia-cuda" "e-i64:64-i128:128-v16:16-v32:32-n16:32:64"
    (<["buffer_for_constant_1" := unused_global]>
       (<["buffer_for_constant_2" := unused_global]>
          (<["buffer_for_constant_4" := used_global]>
             (<["lookup_table" := lookup_table]> ∅)))).

Definition constant_4 : ConstantInfo :=
  MkConstantInfo "buffer_for_constant_4" [Byte.x07] 3%Z.

(** A module where the initializer of the first constant's global refers to
    the global of the fourth, which nothing else uses. *)
Definition chained_module : LlvmModule :=
  MkModule "nvptx64-nvidia-cuda" "e-i64:64-i128:128-v16:16-v32:32-n16:32:64"
    (<["buffer_for_constant_1" := unused_global]>
       (<["buffer_for_constant_4" :=
            MkGlobal false [InitializerOf "buffer_for_constant_1"]]> ∅)).

(** The same module without the first constant's global and without the use
    it made of the table. *)
Definition linked_module_pruned : LlvmModule :=
  MkModule "nvptx64-nvidia-cuda" "e-i64:64-i128:128-v16:16-v32:32-n16:32:64"
    (<["buffer_for_constant_2" := unused_global]>
       (<["buffer_for_constant_4" := used_global]>
          (<["lookup_table" := MkGlobal true [OtherUser "fusion_kernel"]]>
             ∅))).

(** A compilation whose collaborators all succeed: the planner returns the
    alignment it was given for color 0, the emitter fills the module with the
    two globals above and returns a loop around two kernels. *)
Record KernelOp : Set := MkKernelOp {
  kernel_name : string;
  compile_time_info : option string
}.

Definition clear_kernel (thunk : Thunk KernelOp) : Thunk KernelOp :=
  match thunk with
  | LeafThunk op => LeafThunk (MkKernelOp (kernel_name op) None)
  | _ => thunk
  end.

Definition cuda_platform_id : nat := 0.
Definition rocm_platform_id : nat := 1.

Definition planner (_ : HloModule string unit) (alignment : Color → Z)
    (_ : bool) (_ : Colorer) : Outcome Z := Ok (alignment 0%Z).

Definition output_info_of (_ : HloModule string unit) (_ : Z)
  : Outcome unit := Ok tt.

Definition emitted_thunks : list (Thunk KernelOp) :=
  [WhileThunk [LeafThunk (MkKernelOp "condition" (Some "hlo: compare"))]
              [LeafThunk (MkKernelOp "body" (Some "hlo: add"))]].

Definition emitter (context : IrEmitterContext string unit Z) (_ : unit)
  : Outcome (IrEmitterContext string unit Z * list (Thunk KernelOp)) :=
  Ok (MkContext (hlo_module context) (buffer_assignment context)
        (platform_name context)
        (MkModule (target_triple (llvm_module context))
           (data_layout (llvm_module context)) (globals emitted_module))
        [constant_1; constant_2],
      emitted_thunks).

Definition shared_constants_module : HloModule string unit :=
  MkHloModule "module_0001" (MkDebugOptions false true) "f32[4]" tt.

Definition private_constants_module : HloModule string unit :=
  MkHloModule "module_0002" (MkDebugOptions false false) "f32[4]" tt.

(** A signature whose only argument carries an attribute that is none of the
    five. *)
Definition unverifiable_func : FuncOp string :=
  MkFunc [MkArg (ShapedType "f32" 4%Z)
            [MkAttr "lmhlo.params" "0"; MkAttr "lmhlo.written" "unit"]].

Definition element_type_bytes_of (element_type : string) : Z + Status :=
  if String.eqb element_type "f32" then inl 4%Z
  else inr (MkStatus kInvalidArgument "unsupported element type").

Definition internal_error (text : string) : Status := MkStatus kInternal text.

Definition set_up_allocation (_ : FuncOp string) (buffer_sizes : list Z)
  : Outcome (list Z) := Ok buffer_sizes.

(** A thunk sequence with every kind of node, nested: leaves 1 to 8. *)
Definition nested_thunks : list (Thunk nat) :=
  [LeafThunk 1%nat;
   SequentialThunk
     [LeafThunk 2%nat;
      ConditionalThunk
        [[LeafThunk 3%nat];
         [];
         [WhileThunk [LeafThunk 4%nat; SequentialThunk [LeafThunk 5%nat]]
                     [LeafThunk 6%nat];
          LeafThunk 7%nat]]];
   LeafThunk 8%nat].

(** The body of the loop of [RemoveUnusedAndUninitializedGlobals], for one
    constant (lines 335-344). *)
Definition prune_constant (info : ConstantInfo) (llvm_module : LlvmModule)
  : Outcome LlvmModule :=
  if negb (span_empty (content info)) then
    match getGlobalVariable llvm_module (symbol_name info) with
    | None => CheckFailure
    | Some global =>
        if use_empty global
        then Ok (eraseFromParent (symbol_name info) llvm_module)
        else Ok llvm_module
    end
  else Ok llvm_module.

(** The thunk sequence with [f] applied to every leaf and every other node
    as it was. *)
Fixpoint map_leaf {Op} (f : Thunk Op → Thunk Op) (thunk : Thunk Op)
  : Thunk Op :=
  match thunk with
  | LeafThunk _ => f thunk
  | SequentialThunk ts => SequentialThunk (map (map_leaf f) ts)
  | ConditionalThunk bs => ConditionalThunk (map (map (map_leaf f)) bs)
  | WhileThunk c b => WhileThunk (map (map_leaf f) c) (map (map_leaf f) b)
  end.

Definition map_leaves {Op} (f : Thunk Op → Thunk Op)
    (thunk_sequence : list (Thunk Op)) : list (Thunk Op) :=
  map (map_leaf f) thunk_sequence.

(** Composite thunks nested in each other, with no leaf anywhere. *)
Definition leafless_thunks : list (Thunk nat) :=
  [SequentialThunk []; ConditionalThunk [[]; [WhileThunk [] []]]].

(** [sized GetElementTypeBytes arg size]: the argument has a shaped type
    whose element type has a byte size, and [size] is the number of elements
    times that size, as an [int64_t] holds it. *)
Definition sized {ElementType} (GetElementTypeBytes : ElementType → Z + Status)
    (arg : BlockArgument ElementType) (size : Z) : Prop :=
  ∃ element_type num_elements element_type_bytes,
    getType arg = ShapedType element_type num_elements
    ∧ GetElementTypeBytes element_type = inl element_type_bytes
    ∧ size = to_int64 (num_elements * element_type_bytes).

Definition all_attrs_known {ElementType} (arg : BlockArgument ElementType)
  : Prop :=
  Forall (λ attr, known_arg_attr (getName attr) = true) (getArgAttrs arg).

(** A signature of two arguments that passes the verifier, and one whose
    second argument is not shaped and whose third has an unknown attribute. *)
Definition verifiable_func : FuncOp string :=
  MkFunc [MkArg (ShapedType "f32" 4%Z) [MkAttr "lmhlo.params" "0"];
          MkArg (ShapedType "f32" 16%Z)
            [MkAttr "lmhlo.output_index" "0"; MkAttr "lmhlo.must_alias" "1"]].

Definition unshaped_func : FuncOp string :=
  MkFunc [MkArg (ShapedType "f32" 4%Z) [MkAttr "lmhlo.params" "0"];
          MkArg UnshapedType [];
          MkArg (ShapedType "f64" 1%Z) [MkAttr "lmhlo.written" "unit"]].

(** The pieces of [CompileModuleToLlvmIr], by name: the colorer of lines
    245-249, the context the emitter starts from (lines 231-233 and 282-285)
    and the pruning of lines 302-311. *)
Definition chosen_colorer {Shape HloComputation}
    (module : HloModule Shape HloComputation) : Colorer :=
  if xla_gpu_enable_nccl_user_buffers (debug_options module)
  then CollectiveColorer else DefaultColorer.

Definition initial_context {Shape HloComputation BufferAssignment}
    (module : HloModule Shape HloComputation) (assignment : BufferAssignment)
    (target_triple data_layout platform_name : string)
  : IrEmitterContext Shape HloComputation BufferAssignment :=
  MkContext module assignment platform_name
    (MkModule target_triple data_layout ∅) [].

Definition prune_if_supported
    {Shape HloComputation BufferAssignment PlatformId}
    `{EqDecision PlatformId} (kROCmPlatformId platform_id : PlatformId)
    (module : HloModule Shape HloComputation)
    (context : IrEmitterContext Shape HloComputation BufferAssignment)
  : Outcome LlvmModule :=
  if supports_runtime_managed_constants kROCmPlatformId platform_id module
  then RemoveUnusedAndUninitializedGlobals
         (llvm_module context) (constants context)
  else Ok (llvm_module context).

(** ** Dumping the module after a pass *)

(** The largest [int]: past it [pass_counter_++] is undefined. *)
Definition INT_MAX : Z := 2147483647%Z.

(** The decimal digits of a number that is not negative. *)
Definition decimal (n : Z) : string :=
  NilEmpty.string_of_uint (N.to_uint (Z.to_N n)).

(** [absl::StrFormat("%02d", n)]: decimal, at least two characters wide,
    padded with zeros on the left; the sign of a negative number counts for
    the width. *)
Definition StrFormat_02d (n : Z) : string :=
  if (n <? 0)%Z then String "-"%char (decimal (- n))
  else if (n <? 10)%Z then String "0"%char (decimal n)
  else decimal n.

(** The number a string of decimal digits stands for. *)
Definition decimal_value (digits : string) : option Z :=
  (λ d, Z.of_N (N.of_uint d)) <$> NilEmpty.uint_of_string digits.

(** One call of [DumpToFileInDirOrStdout]: the prefix, the suffix and the
    contents written. *)
Record DumpCall : Set := MkDump {
  dump_prefix : string;
  dump_suffix : string;
  dump_contents : string
}.

(** The instrumentation object (lines 123-145), by its counter; the modules
    it points to are the argument [module_str] of [runAfterPass], the printed
    form of the MLIR module at the time of the call, and the predicate
    [DumpingEnabledForHloPass] for the debug options of the HLO module. *)
Record DumpAfterPassIfEnabled : Set := MkDumper { pass_counter_ : Z }.

(** The suffix of lines 135-137. *)
Definition dump_suffix_of (pass_counter : Z) (pass_name : string) : string :=
  "pass_" +:+ StrFormat_02d pass_counter +:+ "." +:+ "after" +:+ "."
  +:+ pass_name +:+ ".mlir".

Section runAfterPass.
Variable DumpingEnabledForHloPass : string → bool.

(** [runAfterPass] (lines 128-139), on the counter and the dumps made so far;
    [None] is the overflow of the counter. *)
Definition runAfterPass (pass_name module_str : string)
    (self : DumpAfterPassIfEnabled) (dumps : list DumpCall)
  : option (DumpAfterPassIfEnabled * list DumpCall) :=
  let should_dump_pass := DumpingEnabledForHloPass pass_name in
  if negb should_dump_pass then Some (self, dumps)
  else if (pass_counter_ self <? INT_MAX)%Z then
    Some (MkDumper (pass_counter_ self + 1),
          dumps ++ [MkDump "lower_to_xla_gpu_runtime"
                      (dump_suffix_of (pass_counter_ self) pass_name)
                      module_str])
  else None.

(** The calls the pass manager makes for a pipeline: one after each pass,
    given by its name and the printed module it leaves. *)
Fixpoint runAfterPasses (passes : list (string * string))
    (self : DumpAfterPassIfEnabled) (dumps : list DumpCall)
  : option (DumpAfterPassIfEnabled * list DumpCall) :=
  match passes with
  | [] => Some (self, dumps)
  | (pass_name, module_str) :: rest =>
      match runAfterPass pass_name module_str self dumps with
      | Some (self', dumps') => runAfterPasses rest self' dumps'
      | None => None
      end
  end.

(** The passes of a pipeline that are dumped. *)
Definition dumped_passes (passes : list (string * string))
  : list (string * string) :=
  filter (λ pass, DumpingEnabledForHloPass pass.1 = true) passes.
End runAfterPass.

(** The dumps of a list of passes numbered from [first]. *)
Fixpoint numbered_dumps (first : Z) (passes : list (string * string))
  : list DumpCall :=
  match passes with
  | [] => []
  | (pass_name, module_str) :: rest =>
      MkDump "lower_to_xla_gpu_runtime" (dump_suffix_of first pass_name)
        module_str
      :: numbered_dumps (first + 1) rest
  end.

(** A pipeline of four passes, of which the canonicalizer is not dumped. *)
Definition dump_all_but_canonicalize (pass_name : string) : bool :=
  negb (String.eqb pass_name "Canonicalizer").

Definition lowering_pipeline : list (string * string) :=
  [("ConvertLmhloToGpuRuntime", "module @a"); ("Canonicalizer", "module @b");
   ("ConvertMemrefGetGlobal", "module @c"); ("Inliner", "module @d")].

(** ** FP8 detection *)

Section HasFp8.
Context {HloModuleT HloComputationT HloInstructionT ShapeT PrimitiveType : Type}.

(** Declared outside this file: the accessors of the HLO classes, the five
    FP8 members of [PrimitiveType] and [ShapeUtil::HasPrimitiveType]. *)
Variable computations : HloModuleT → list HloComputationT.
Variable instructions : HloComputationT → list HloInstructionT.
Variable shape : HloInstructionT → ShapeT.
Variables F8E5M2 F8E5M2FNUZ F8E4M3FN F8E4M3B11FNUZ F8E4M3FNUZ : PrimitiveType.
Variable HasPrimitiveType : ShapeT → PrimitiveType → bool.

(** The condition of lines 111-115. *)
Definition has_fp8_shape (instruction : HloInstructionT) : bool :=
  HasPrimitiveType (shape instruction) F8E5M2
  || HasPrimitiveType (shape instruction) F8E5M2FNUZ
  || HasPrimitiveType (shape instruction) F8E4M3FN
  || HasPrimitiveType (shape instruction) F8E4M3B11FNUZ
  || HasPrimitiveType (shape instruction) F8E4M3FNUZ.

(** [HasFp8] (lines 108-121): the two loops with their early return. *)
Definition HasFp8 (hlo_module : HloModuleT) : bool :=
  existsb (λ computation, existsb has_fp8_shape (instructions computation))
          (computations hlo_module).
End HasFp8.

(** ** Attributes of the entry function *)

Inductive Attribute : Set :=
| I64IntegerAttr (value : Z)
| OtherAttr (text : string).

(** A symbol of an MLIR module: a function, with its attribute dictionary,
    or an operation of another kind. *)
Inductive SymbolOp : Type :=
| FuncSymbol (attrs : gmap string Attribute)
| OtherSymbol.

(** [module.lookupSymbol<mlir::func::FuncOp>(name)]: null when there is no
    such symbol or it is no function. *)
Definition lookupFunc (module : gmap string SymbolOp) (name : string)
  : option (gmap string Attribute) :=
  match module !! name with
  | Some (FuncSymbol attrs) => Some attrs
  | _ => None
  end.

(** [ForwardCollectiveAttrs] (lines 172-179), with the two numbers of the
    configuration; [None] is the use of the null function. *)
Definition ForwardCollectiveAttrs (module : gmap string SymbolOp)
    (entry_function_name : string) (replica_count num_partitions : Z)
  : option (gmap string SymbolOp) :=
  match lookupFunc module entry_function_name with
  | None => None
  | Some attrs =>
      Some (<[entry_function_name :=
                FuncSymbol
                  (<["num_partitions" := I64IntegerAttr num_partitions]>
                     (<["replica_count" := I64IntegerAttr replica_count]>
                        attrs))]> module)
  end.

(** A module with an entry function that has attributes already, and a
    global. *)
Definition gpu_module : gmap string SymbolOp :=
  <["main" := FuncSymbol (<["replica_count" := I64IntegerAttr 1]>
                            (<["sym_visibility" := OtherAttr "public"]> ∅))]>
    (<["buffer" := OtherSymbol]> ∅).

(** * Properties *)

(** ** The pruning of constant globals *)

Lemma span_empty_nil (bytes : list Byte.byte) :
  span_empty bytes = true ↔ bytes = [].
Proof. destruct bytes; simpl; split; congruence. Qed.

Lemma span_empty_cons (bytes : list Byte.byte) :
  span_empty bytes = false ↔ bytes ≠ [].
Proof. destruct bytes; simpl; split; congruence. Qed.

Lemma use_empty_nil (global : GlobalVariable) :
  use_empty global = true ↔ users global = [].
Proof. unfold use_empty. destruct (users global); split; congruence. Qed.

(** [getGlobalVariable] finds the globals of the table that are not of local
    linkage. *)
Lemma getGlobalVariable_Some (m : LlvmModule) (name : string)
    (global : GlobalVariable) :
  getGlobalVariable m name = Some global ↔
  globals m !! name = Some global ∧ hasLocalLinkage global = false.
Proof.
  unfold getGlobalVariable.
  destruct (globals m !! name) as [g|]; [|split; [done|by intros [? _]]].
  destruct (hasLocalLinkage g) eqn:Hl; split.
  - done.
  - intros [[= ->] ?]. congruence.
  - intros [= ->]. done.
  - by intros [-> _].
Qed.

(** A rewriting of the table that keeps the linkage of every global is seen
    through [getGlobalVariable]. *)
Lemma getGlobalVariable_fmap (f : GlobalVariable → GlobalVariable)
    (m m' : LlvmModule) (name : string) :
  (∀ global, hasLocalLinkage (f global) = hasLocalLinkage global) →
  globals m' !! name = f <$> globals m !! name →
  getGlobalVariable m' name = f <$> getGlobalVariable m name.
Proof.
  intros Hf Hlk. unfold getGlobalVariable. rewrite Hlk.
  destruct (globals m !! name) as [g|]; simpl; [|done].
  rewrite Hf. by destruct (hasLocalLinkage g).
Qed.

(** The table of globals after an erasure. *)
Lemma globals_eraseFromParent (m : LlvmModule) (name other : string) :
  globals (eraseFromParent name m) !! other
  = if decide (other = name) then None
    else drop_uses_of name <$> globals m !! other.
Proof.
  unfold eraseFromParent; simpl. rewrite lookup_fmap.
  case_decide as Heq.
  - subst other. by rewrite lookup_delete_eq.
  - rewrite lookup_delete_ne; [done|congruence].
Qed.

Lemma getGlobalVariable_erase_eq (m : LlvmModule) (name : string) :
  getGlobalVariable (eraseFromParent name m) name = None.
Proof.
  unfold getGlobalVariable. rewrite globals_eraseFromParent.
  by rewrite decide_True.
Qed.

Lemma getGlobalVariable_erase_ne (m : LlvmModule) (name other : string) :
  name ≠ other →
  getGlobalVariable (eraseFromParent name m) other
  = drop_uses_of name <$> getGlobalVariable m other.
Proof.
  intros Hne. apply getGlobalVariable_fmap; [done|].
  rewrite globals_eraseFromParent. rewrite decide_False; [done|congruence].
Qed.

(** A name that [getGlobalVariable] does not find is not found after an
    erasure either. *)
Lemma getGlobalVariable_erase_None (m : LlvmModule) (name other : string) :
  getGlobalVariable m other = None →
  getGlobalVariable (eraseFromParent name m) other = None.
Proof.
  intros Hnone. destruct (decide (name = other)) as [->|Hne].
  - apply getGlobalVariable_erase_eq.
  - rewrite getGlobalVariable_erase_ne by done. by rewrite Hnone.
Qed.

Lemma users_drop_uses_of (name : string) (global : GlobalVariable)
    (user : User) :
  user ∈ users (drop_uses_of name global) ↔
  user ≠ InitializerOf name ∧ user ∈ users global.
Proof.
  unfold drop_uses_of; simpl.
  exact (list_elem_of_filter (λ u, u ≠ InitializerOf name) _ _).
Qed.

Lemma filter_all {A} (P : A → Prop) `{!∀ x, Decision (P x)} (l : list A) :
  (∀ x, x ∈ l → P x) → filter P l = l.
Proof.
  induction l as [|x l IH]; intros Hall; [done|].
  rewrite filter_cons_True by (apply Hall; by left).
  f_equal. apply IH. intros y Hy. apply Hall. by right.
Qed.

Lemma drop_uses_of_id (name : string) (global : GlobalVariable) :
  InitializerOf name ∉ users global → drop_uses_of name global = global.
Proof.
  intros Hnot. destruct global as [l us]. unfold drop_uses_of; simpl in *.
  f_equal. apply filter_all. intros user Hin ->. done.
Qed.

Lemma use_empty_drop_uses_of (name : string) (global : GlobalVariable) :
  use_empty global = true → use_empty (drop_uses_of name global) = true.
Proof.
  rewrite !use_empty_nil. unfold drop_uses_of; simpl. by intros ->.
Qed.

Lemma drop_uses_where_id (erased : string → bool) (global : GlobalVariable) :
  (∀ name, InitializerOf name ∈ users global → erased name = false) →
  drop_uses_where erased global = global.
Proof.
  intros Hnot. destruct global as [l us]. unfold drop_uses_where; simpl in *.
  f_equal. apply filter_all. intros [name|id] Hin; simpl; [|done].
  by rewrite Hnot.
Qed.

Lemma drop_uses_where_ext (erased erased' : string → bool)
    (global : GlobalVariable) :
  (∀ name, erased name = erased' name) →
  drop_uses_where erased global = drop_uses_where erased' global.
Proof.
  intros Hext. unfold drop_uses_where. f_equal.
  apply list_filter_iff. intros [name|id]; simpl; [|done]. by rewrite Hext.
Qed.

(** Dropping the uses of one erased global, then those of others, is
    dropping the uses of all of them. *)
Lemma drop_uses_where_drop_uses_of (erased erased' : string → bool)
    (name : string) (global : GlobalVariable) :
  (∀ other, erased' other = bool_decide (other = name) || erased other) →
  drop_uses_where erased (drop_uses_of name global)
  = drop_uses_where erased' global.
Proof.
  intros Hext. unfold drop_uses_where, drop_uses_of; simpl. f_equal.
  rewrite list_filter_filter. apply list_filter_iff.
  intros [other|id]; simpl; [|by intuition].
  rewrite Hext. case_bool_decide as Heq; simpl.
  - subst other. split; [by intros [_ ?]|done].
  - split; [by intros [? _]|]. intros He. split; [done|congruence].
Qed.

Lemma users_drop_uses_where (erased : string → bool) (global : GlobalVariable)
    (user : User) :
  user ∈ users (drop_uses_where erased global) ↔
  kept_user erased user = true ∧ user ∈ users global.
Proof.
  unfold drop_uses_where; simpl.
  exact (list_elem_of_filter (λ u, kept_user erased u = true) _ _).
Qed.

Lemma erased_by_cons (m : LlvmModule) (info : ConstantInfo)
    (rest : list ConstantInfo) (name : string) :
  erased_by m (info :: rest) name
  = negb (span_empty (content info))
    && bool_decide (symbol_name info = name)
    && match getGlobalVariable m name with
       | Some global => use_empty global
       | None => false
       end
    || erased_by m rest name.
Proof. reflexivity. Qed.

Lemma erased_by_same_lookup (m1 m2 : LlvmModule) (cs : list ConstantInfo)
    (name : string) :
  getGlobalVariable m1 name = getGlobalVariable m2 name →
  erased_by m1 cs name = erased_by m2 cs name.
Proof.
  intros Heq. induction cs as [|info rest IH]; [done|].
  rewrite !erased_by_cons, Heq, IH. done.
Qed.

Lemma erased_by_None (m : LlvmModule) (cs : list ConstantInfo) (name : string) :
  getGlobalVariable m name = None → erased_by m cs name = false.
Proof.
  intros Hnone. induction cs as [|info rest IH]; [done|].
  rewrite erased_by_cons, Hnone, IH. by rewrite andb_false_r.
Qed.

Lemma erased_by_true (m : LlvmModule) (cs : list ConstantInfo) (name : string) :
  erased_by m cs name = true ↔
  ∃ info global, info ∈ cs ∧ content info ≠ [] ∧ symbol_name info = name
                 ∧ getGlobalVariable m name = Some global
                 ∧ users global = [].
Proof.
  induction cs as [|info rest IH].
  - split; [done|]. intros (? & ? & Hin & _). by apply elem_of_nil in Hin.
  - rewrite erased_by_cons, orb_true_iff, IH, !andb_true_iff, negb_true_iff,
      span_empty_cons, bool_decide_eq_true. split.
    + intros [[[Hne Hname] Hg]|(i & g & Hin & H)].
      * destruct (getGlobalVariable m name) as [g|] eqn:Hlk; [|done].
        exists info, g. rewrite elem_of_cons, <- use_empty_nil. split_and!; auto.
      * exists i, g. rewrite elem_of_cons. tauto.
    + intros (i & g & Hin & Hne & Hname & Hlk & Hu).
      apply elem_of_cons in Hin as [->|Hin].
      * left. rewrite Hlk, use_empty_nil. done.
      * right. eauto 8.
Qed.

Lemma erased_by_listed (m : LlvmModule) (cs : list ConstantInfo)
    (name : string) :
  erased_by m cs name = true → name ∈ symbol_name <$> cs.
Proof.
  intros (i & g & Hin & _ & <- & _)%erased_by_true.
  by apply list_elem_of_fmap_2.
Qed.

Lemma independent_globals_spec (m : LlvmModule) (cs : list ConstantInfo) :
  independent_globals m cs = true ↔
  ∀ info info' global, info ∈ cs → info' ∈ cs →
    globals m !! symbol_name info = Some global →
    InitializerOf (symbol_name info') ∉ users global.
Proof.
  unfold independent_globals. rewrite forallb_forall. split.
  - intros H info info' g Hin Hin' Hg.
    apply list_elem_of_In in Hin, Hin'.
    specialize (H info Hin). rewrite Hg, forallb_forall in H.
    specialize (H info' Hin'). by apply bool_decide_eq_true in H.
  - intros H info Hin%list_elem_of_In.
    destruct (globals m !! symbol_name info) as [g|] eqn:Hg; [|done].
    apply forallb_forall. intros info' Hin'%list_elem_of_In.
    apply bool_decide_eq_true. eauto.
Qed.

(** Erasing a global that no global of the list is used by changes nothing
    to what is erasable in the list. *)
Lemma erased_by_eraseFromParent (m : LlvmModule) (name : string)
    (rest : list ConstantInfo) (other : string) :
  name ∉ symbol_name <$> rest →
  (∀ info global, info ∈ rest → globals m !! symbol_name info = Some global →
                  InitializerOf name ∉ users global) →
  erased_by (eraseFromParent name m) rest other = erased_by m rest other.
Proof.
  induction rest as [|i rest IH]; intros Hfresh Hind; [done|].
  rewrite fmap_cons, not_elem_of_cons in Hfresh. destruct Hfresh as [Hne Hfresh].
  rewrite !erased_by_cons, IH;
    [|done|by intros ? ? ?; apply Hind; right].
  f_equal. case_bool_decide as Heq; [|by rewrite !andb_false_r].
  f_equal. subst other. rewrite getGlobalVariable_erase_ne by done.
  destruct (getGlobalVariable m (symbol_name i)) as [g|] eqn:Hg; [|done].
  apply getGlobalVariable_Some in Hg as [Hg _]. simpl.
  rewrite drop_uses_of_id; [done|]. eapply Hind; [by left|done].
Qed.

(** The pass touches nothing but the table of globals. *)
Lemma RemoveUnusedAndUninitializedGlobals_frame
    (cs : list ConstantInfo) (m m' : LlvmModule) :
  RemoveUnusedAndUninitializedGlobals m cs = Ok m' →
  target_triple m' = target_triple m ∧ data_layout m' = data_layout m.
Proof.
  revert m. induction cs as [|info rest IH]; intros m Hrun; simpl in Hrun.
  - by injection Hrun as <-.
  - destruct (span_empty (content info)); simpl in *; [by apply IH|].
    destruct (getGlobalVariable m (symbol_name info)) as [g|]; [|done].
    destruct (use_empty g); apply IH in Hrun; done.
Qed.

(** The pass never returns a status: it returns or it aborts. *)
Lemma RemoveUnusedAndUninitializedGlobals_no_status
    (cs : list ConstantInfo) (m : LlvmModule) :
  is_error (RemoveUnusedAndUninitializedGlobals m cs) = false.
Proof.
  revert m. induction cs as [|info rest IH]; intros m; simpl; [done|].
  destruct (span_empty (content info)); simpl; [done|].
  destruct (getGlobalVariable m (symbol_name info)) as [g|]; [|done].
  by destruct (use_empty g).
Qed.

(** What the pass leaves in the table of globals, when the constants have
    pairwise distinct symbol names, every constant with non-empty content has
    its global, and no global of the list is used by another. *)
Lemma RemoveUnusedAndUninitializedGlobals_independent
    (cs : list ConstantInfo) (m : LlvmModule) :
  NoDup (symbol_name <$> cs) →
  (∀ info, info ∈ cs → content info ≠ [] →
           is_Some (getGlobalVariable m (symbol_name info))) →
  (∀ info info' global, info ∈ cs → info' ∈ cs →
     globals m !! symbol_name info = Some global →
     InitializerOf (symbol_name info') ∉ users global) →
  ∃ m', RemoveUnusedAndUninitializedGlobals m cs = Ok m'
    ∧ ∀ name, globals m' !! name
              = if erased_by m cs name then None
                else drop_uses_where (erased_by m cs) <$> globals m !! name.
Proof.
  revert m. induction cs as [|info rest IH]; intros m Hnd Hall Hind.
  { exists m. split; [done|]. intros name. simpl.
    destruct (globals m !! name) as [g|]; simpl; [|done].
    by rewrite drop_uses_where_id. }
  rewrite fmap_cons in Hnd. apply NoDup_cons in Hnd as [Hfresh Hnd].
  assert (Hkeep : (∀ k, erased_by m (info :: rest) k = erased_by m rest k) →
    ∃ m', RemoveUnusedAndUninitializedGlobals m rest = Ok m'
      ∧ ∀ name, globals m' !! name
                = if erased_by m (info :: rest) name then None
                  else drop_uses_where (erased_by m (info :: rest))
                         <$> globals m !! name).
  { intros Hext. destruct (IH m) as (m' & Hrun & Hlk); [done| | |].
    - intros i Hin. apply Hall. by right.
    - intros i i' g Hin Hin'. apply Hind; by right.
    - exists m'. split; [done|]. intros name. rewrite Hlk, Hext.
      destruct (erased_by m rest name); [done|].
      destruct (globals m !! name); simpl; [|done].
      f_equal. apply drop_uses_where_ext. intros k. by rewrite Hext. }
  cbn [RemoveUnusedAndUninitializedGlobals].
  destruct (span_empty (content info)) eqn:Hc; cbn [negb].
  { apply Hkeep. intros k. rewrite erased_by_cons, Hc. done. }
  destruct (Hall info) as [g Hg];
    [by left|by apply span_empty_cons|].
  rewrite Hg. destruct (use_empty g) eqn:Hu.
  2: { apply Hkeep. intros k. rewrite erased_by_cons.
       case_bool_decide as Hk; [|by rewrite andb_false_r].
       subst k. by rewrite Hg, Hu, andb_false_r. }
  assert (Hsame : ∀ k, erased_by (eraseFromParent (symbol_name info) m) rest k
                       = erased_by m rest k).
  { intros k. apply erased_by_eraseFromParent; [done|].
    intros i gi Hin Hgi. eapply (Hind i info); [by right|by left|done]. }
  destruct (IH (eraseFromParent (symbol_name info) m)) as (m' & Hrun & Hlk);
    [done| | |].
  - intros i Hin Hne.
    assert (symbol_name info ≠ symbol_name i) as Hneq.
    { intros Heq. apply Hfresh. rewrite Heq. by apply list_elem_of_fmap_2. }
    rewrite getGlobalVariable_erase_ne by done.
    apply fmap_is_Some, Hall; [by right|done].
  - intros i i' gi Hin Hin' Hgi. rewrite globals_eraseFromParent in Hgi.
    case_decide; [done|].
    destruct (globals m !! symbol_name i) as [g0|] eqn:Hg0; [|done].
    injection Hgi as <-. rewrite users_drop_uses_of. intros [_ Hbad].
    eapply (Hind i i'); [by right|by right|done|done].
  - exists m'. split; [done|]. intros name.
    assert (Hext : ∀ k, erased_by m (info :: rest) k
                        = bool_decide (k = symbol_name info)
                          || erased_by (eraseFromParent (symbol_name info) m)
                               rest k).
    { intros k. rewrite erased_by_cons, Hc, Hsame. simpl. f_equal.
      case_bool_decide as Hk.
      - subst k. by rewrite Hg, Hu, bool_decide_eq_true_2.
      - rewrite bool_decide_eq_false_2; [done|congruence]. }
    rewrite Hlk, globals_eraseFromParent, (Hext name).
    case_decide as Hname.
    + rewrite bool_decide_eq_true_2 by done. simpl.
      by destruct (erased_by _ rest name).
    + rewrite bool_decide_eq_false_2 by done. simpl.
      destruct (erased_by _ rest name); [done|].
      destruct (globals m !! name); simpl; [|done].
      f_equal. by apply drop_uses_where_drop_uses_of.
Qed.

(** Under the same conditions the globals of the list lose no user. *)
Lemma drop_uses_where_listed (m : LlvmModule) (cs : list ConstantInfo)
    (info : ConstantInfo) (global : GlobalVariable) :
  (∀ info info' global, info ∈ cs → info' ∈ cs →
     globals m !! symbol_name info = Some global →
     InitializerOf (symbol_name info') ∉ users global) →
  info ∈ cs →
  globals m !! symbol_name info = Some global →
  drop_uses_where (erased_by m cs) global = global.
Proof.
  intros Hind Hin Hg. apply drop_uses_where_id. intros name Huser.
  destruct (erased_by m cs name) eqn:He; [exfalso|done].
  apply erased_by_listed, list_elem_of_fmap in He as (i' & -> & Hin').
  by eapply (Hind info i').
Qed.

(** Two constants of a list of pairwise distinct symbol names that have the
    same symbol name are the same constant. *)
Lemma NoDup_symbol_name (cs : list ConstantInfo) (info info' : ConstantInfo) :
  NoDup (symbol_name <$> cs) →
  info ∈ cs → info' ∈ cs → symbol_name info = symbol_name info' →
  info = info'.
Proof.
  intros Hnd Hi Hin Hname.
  apply list_elem_of_lookup in Hi as [k Hk].
  apply list_elem_of_lookup in Hin as [l Hl].
  assert (k = l) as ->; [|congruence].
  eapply NoDup_lookup; [done| |]; rewrite list_lookup_fmap.
  - by rewrite Hk.
  - rewrite Hl. simpl. by rewrite Hname.
Qed.

(** Where the initializer of one constant's global uses the global of
    another, the erasure of the first frees the second: taken in this order
    both are erased, taken in the other order the second is kept. *)
Example RemoveUnusedAndUninitializedGlobals_chained :
  RemoveUnusedAndUninitializedGlobals chained_module [constant_1; constant_4]
  = Ok (MkModule (target_triple chained_module) (data_layout chained_module) ∅)
  ∧ RemoveUnusedAndUninitializedGlobals chained_module
      [constant_4; constant_1]
    = Ok (MkModule (target_triple chained_module)
            (data_layout chained_module)
            {["buffer_for_constant_4" := unused_global]}).
Proof. split; reflexivity. Qed.

(** C1, as the spec words it, fails.  Of two unreferenced constants the pass
    erases the global of the one with non-empty content and keeps the global
    of the one with empty content. *)
Lemma GlobalPruner_erases_nonempty_keeps_empty :
  ∃ m', RemoveUnusedAndUninitializedGlobals emitted_module
          [constant_1; constant_2] = Ok m'
        ∧ content constant_1 ≠ []
        ∧ getGlobalVariable emitted_module (symbol_name constant_1)
          = Some unused_global
        ∧ getGlobalVariable m' (symbol_name constant_1) = None
        ∧ content constant_2 = []
        ∧ getGlobalVariable emitted_module (symbol_name constant_2)
          = Some unused_global
        ∧ getGlobalVariable m' (symbol_name constant_2) = Some unused_global.
Proof.
  eexists. split; [reflexivity|]. split_and!; try reflexivity. discriminate.
Qed.

(** C1, amended.  For constants with pairwise distinct symbol names, each
    constant with non-empty content having a global that [getGlobalVariable]
    finds in the module, and no global of a constant being used by the
    initializer of the global of another, the pass returns, and in the module
    it leaves: a constant with empty content keeps its global, referenced or
    not; a constant with non-empty content whose global has no use has lost
    it; a constant with non-empty content whose global has a use keeps it; and
    the table of globals is the one of the module given, less the globals that
    [erased_by] lists and less the uses that these made of the globals that
    stay. *)
Theorem RemoveUnusedAndUninitializedGlobals_prunes_exactly
    (m : LlvmModule) (cs : list ConstantInfo) :
  NoDup (symbol_name <$> cs) →
  (∀ info, info ∈ cs → content info ≠ [] →
           is_Some (getGlobalVariable m (symbol_name info))) →
  independent_globals m cs = true →
  ∃ m', RemoveUnusedAndUninitializedGlobals m cs = Ok m'
    ∧ (∀ info, info ∈ cs → content info = [] →
         getGlobalVariable m' (symbol_name info)
         = getGlobalVariable m (symbol_name info))
    ∧ (∀ info global, info ∈ cs → content info ≠ [] →
         getGlobalVariable m (symbol_name info) = Some global →
         users global = [] →
         getGlobalVariable m' (symbol_name info) = None)
    ∧ (∀ info global, info ∈ cs → content info ≠ [] →
         getGlobalVariable m (symbol_name info) = Some global →
         users global ≠ [] →
         getGlobalVariable m' (symbol_name info) = Some global)
    ∧ (∀ name, globals m' !! name
               = if erased_by m cs name then None
                 else drop_uses_where (erased_by m cs) <$> globals m !! name).
Proof.
  intros Hnd Hall Hind.
  pose proof (proj1 (independent_globals_spec m cs) Hind) as Hsep.
  clear Hind. rename Hsep into Hind.
  destruct (RemoveUnusedAndUninitializedGlobals_independent cs m Hnd Hall Hind)
    as (m' & Hrun & Hlk).
  assert (Hkept : ∀ info, info ∈ cs →
            erased_by m cs (symbol_name info) = false →
            getGlobalVariable m' (symbol_name info)
            = getGlobalVariable m (symbol_name info)).
  { intros info Hin He. unfold getGlobalVariable. rewrite Hlk, He.
    destruct (globals m !! symbol_name info) as [g|] eqn:Hg; [|done].
    simpl. by rewrite (drop_uses_where_listed m cs info g). }
  exists m'. split_and!; [done| | | |done].
  - intros info Hin Hempty. apply Hkept; [done|].
    destruct (erased_by m cs (symbol_name info)) eqn:He; [|done].
    apply erased_by_true in He as (i & g & Hi & Hne & Hname & _).
    by rewrite (NoDup_symbol_name cs i info Hnd Hi Hin Hname) in Hne.
  - intros info g Hin Hne Hg Hu. unfold getGlobalVariable. rewrite Hlk.
    assert (erased_by m cs (symbol_name info) = true) as ->; [|done].
    apply erased_by_true. eauto 10.
  - intros info g Hin Hne Hg Hu. rewrite <- Hg. apply Hkept; [done|].
    destruct (erased_by m cs (symbol_name info)) eqn:He; [|done].
    apply erased_by_true in He as (i & g' & _ & _ & _ & Hg' & Hu').
    congruence.
Qed.

Lemma RemoveUnusedAndUninitializedGlobals_prunes_exactly_witness :
  ∃ m', RemoveUnusedAndUninitializedGlobals linked_module
          [constant_1; constant_2; constant_4] = Ok m'
    ∧ (∀ info, info ∈ [constant_1; constant_2; constant_4] →
         content info = [] →
         getGlobalVariable m' (symbol_name info)
         = getGlobalVariable linked_module (symbol_name info))
    ∧ (∀ info global, info ∈ [constant_1; constant_2; constant_4] →
         content info ≠ [] →
         getGlobalVariable linked_module (symbol_name info) = Some global →
         users global = [] →
         getGlobalVariable m' (symbol_name info) = None)
    ∧ (∀ info global, info ∈ [constant_1; constant_2; constant_4] →
         content info ≠ [] →
         getGlobalVariable linked_module (symbol_name info) = Some global →
         users global ≠ [] →
         getGlobalVariable m' (symbol_name info) = Some global)
    ∧ (∀ name, globals m' !! name
               = if erased_by linked_module
                      [constant_1; constant_2; constant_4] name
                 then None
                 else drop_uses_where
                        (erased_by linked_module
                           [constant_1; constant_2; constant_4])
                        <$> globals linked_module !! name).
Proof.
  apply (RemoveUnusedAndUninitializedGlobals_prunes_exactly linked_module
           [constant_1; constant_2; constant_4]).
  - apply (bool_decide_unpack _). reflexivity.
  - intros info Hin _.
    apply elem_of_cons in Hin as [->|Hin]; [by eexists|].
    apply elem_of_cons in Hin as [->|Hin]; [by eexists|].
    apply elem_of_cons in Hin as [->|Hin]; [by eexists|].
    by apply elem_of_nil in Hin.
  - reflexivity.
Defined.

(** C9.  If some constant of the list has non-empty content and the module
    has no global variable of its symbol name, [CHECK(global != nullptr)]
    fails: the pass aborts, whatever the other constants are, and no status
    is returned. *)
Theorem RemoveUnusedAndUninitializedGlobals_missing_global_aborts
    (m : LlvmModule) (cs : list ConstantInfo) (info : ConstantInfo) :
  info ∈ cs →
  content info ≠ [] →
  getGlobalVariable m (symbol_name info) = None →
  RemoveUnusedAndUninitializedGlobals m cs = CheckFailure.
Proof.
  revert m. induction cs as [|head rest IH]; intros m Hin Hne Hnone.
  - by apply elem_of_nil in Hin.
  - simpl. apply elem_of_cons in Hin as [<-|Hin].
    + apply span_empty_cons in Hne. by rewrite Hne, Hnone.
    + destruct (span_empty (content head)); simpl; [by apply IH|].
      destruct (getGlobalVariable m (symbol_name head)) as [g|] eqn:Hg;
        [|done].
      destruct (use_empty g); [|by apply IH].
      apply IH; [done..|]. by apply getGlobalVariable_erase_None.
Qed.

Lemma RemoveUnusedAndUninitializedGlobals_missing_global_aborts_witness :
  RemoveUnusedAndUninitializedGlobals emitted_module
    [constant_1; constant_2; constant_3] = CheckFailure.
Proof.
  apply (RemoveUnusedAndUninitializedGlobals_missing_global_aborts
           emitted_module [constant_1; constant_2; constant_3] constant_3).
  - apply elem_of_cons; right. apply elem_of_cons; right.
    apply elem_of_cons; by left.
  - discriminate.
  - reflexivity.
Defined.

(** ** The traversal of thunk trees *)

Section ForAllThunks_facts.
Context {Op St : Type} (fn : Thunk Op → St → Thunk Op * St).

(** The equations of the loop body, one per kind. *)
Lemma ForAllThunks_body_leaf (op : Op) (s : St) :
  ForAllThunks_body fn (LeafThunk op) s = fn (LeafThunk op) s.
Proof. reflexivity. Qed.

Lemma ForAllThunks_body_sequential (ts : list (Thunk Op)) (s : St) :
  ForAllThunks_body fn (SequentialThunk ts) s
  = let '(ts', s') := ForAllThunks fn ts s in (SequentialThunk ts', s').
Proof. reflexivity. Qed.

Lemma ForAllThunks_body_conditional (bs : list (list (Thunk Op))) (s : St) :
  ForAllThunks_body fn (ConditionalThunk bs) s
  = let '(bs', s') := ForAllThunks_branches fn bs s in
    (ConditionalThunk bs', s').
Proof. reflexivity. Qed.

Lemma ForAllThunks_body_while (c b : list (Thunk Op)) (s : St) :
  ForAllThunks_body fn (WhileThunk c b) s
  = let '(c', s1) := ForAllThunks fn c s in
    let '(b', s2) := ForAllThunks fn b s1 in
    (WhileThunk c' b', s2).
Proof. reflexivity. Qed.

Lemma ForAllThunks_cons (t : Thunk Op) (rest : list (Thunk Op)) (s : St) :
  ForAllThunks fn (t :: rest) s
  = let '(t', s1) := ForAllThunks_body fn t s in
    let '(rest', s2) := ForAllThunks fn rest s1 in
    (t' :: rest', s2).
Proof. reflexivity. Qed.

Lemma ForAllThunks_branches_cons (b : list (Thunk Op))
    (rest : list (list (Thunk Op))) (s : St) :
  ForAllThunks_branches fn (b :: rest) s
  = let '(b', s1) := ForAllThunks fn b s in
    let '(rest', s2) := ForAllThunks_branches fn rest s1 in
    (b' :: rest', s2).
Proof. reflexivity. Qed.

Lemma ForAllThunks_state_of_body (ts : list (Thunk Op)) :
  Forall (λ t, ∀ s, (ForAllThunks_body fn t s).2
                    = foldl (invoke fn) s (leaves_of t)) ts →
  ∀ s, (ForAllThunks fn ts s).2 = foldl (invoke fn) s (leaves ts).
Proof.
  unfold leaves. induction 1 as [|t rest Ht _ IH]; intros s; [done|].
  rewrite ForAllThunks_cons. cbn [map concat].
  rewrite foldl_app, <- Ht, <- IH.
  destruct (ForAllThunks_body fn t s) as [t' s1]. cbn [snd].
  by destruct (ForAllThunks fn rest s1).
Qed.

Lemma ForAllThunks_state_of_branches (bs : list (list (Thunk Op))) :
  Forall (λ b, ∀ s, (ForAllThunks fn b s).2 = foldl (invoke fn) s (leaves b)) bs →
  ∀ s, (ForAllThunks_branches fn bs s).2
       = foldl (invoke fn) s (concat (map leaves bs)).
Proof.
  induction 1 as [|b rest Hb _ IH]; intros s; [done|].
  rewrite ForAllThunks_branches_cons. cbn [map concat].
  rewrite foldl_app, <- Hb, <- IH.
  destruct (ForAllThunks fn b s) as [b' s1]. cbn [snd].
  by destruct (ForAllThunks_branches fn rest s1).
Qed.

Lemma ForAllThunks_body_state (thunk : Thunk Op) :
  ∀ s, (ForAllThunks_body fn thunk s).2 = foldl (invoke fn) s (leaves_of thunk).
Proof.
  induction thunk as [op|ts IH|bs IH|c b IHc IHb] using Thunk_ind; intros s.
  - reflexivity.
  - rewrite ForAllThunks_body_sequential.
    change (leaves_of (SequentialThunk ts)) with (leaves ts).
    rewrite <- (ForAllThunks_state_of_body ts IH s).
    by destruct (ForAllThunks fn ts s).
  - rewrite ForAllThunks_body_conditional.
    change (leaves_of (ConditionalThunk bs)) with (concat (map leaves bs)).
    rewrite <- (ForAllThunks_state_of_branches bs).
    + by destruct (ForAllThunks_branches fn bs s).
    + eapply Forall_impl; [exact IH|]. intros b Hb.
      by apply ForAllThunks_state_of_body.
  - rewrite ForAllThunks_body_while.
    change (leaves_of (WhileThunk c b)) with (leaves c ++ leaves b).
    rewrite foldl_app, <- (ForAllThunks_state_of_body c IHc s).
    destruct (ForAllThunks fn c s) as [c' s1]. simpl.
    rewrite <- (ForAllThunks_state_of_body b IHb s1).
    by destruct (ForAllThunks fn b s1).
Qed.

(** The state after a traversal is the fold of the action over the leaves,
    in tree order. *)
Lemma ForAllThunks_state (ts : list (Thunk Op)) (s : St) :
  (ForAllThunks fn ts s).2 = foldl (invoke fn) s (leaves ts).
Proof.
  apply ForAllThunks_state_of_body, Forall_forall.
  intros t _. apply ForAllThunks_body_state.
Qed.

(** A loop node: the whole condition sequence, then the whole body. *)
Lemma ForAllThunks_while_order (c b : list (Thunk Op)) (s : St) :
  (ForAllThunks fn [WhileThunk c b] s).2
  = (ForAllThunks fn b (ForAllThunks fn c s).2).2.
Proof.
  rewrite ForAllThunks_cons, ForAllThunks_body_while.
  destruct (ForAllThunks fn c s) as [c' s1]. simpl.
  by destruct (ForAllThunks fn b s1).
Qed.
End ForAllThunks_facts.

Lemma leaves_are_leaves {Op} (ts : list (Thunk Op)) :
  Forall is_leaf (leaves ts).
Proof.
  assert (Hone : ∀ t : Thunk Op, Forall is_leaf (leaves_of t)).
  { assert (Hseq : ∀ l : list (Thunk Op),
      Forall (λ t, Forall is_leaf (leaves_of t)) l →
      Forall is_leaf (concat (map leaves_of l))).
    { induction 1; simpl; [constructor|by apply Forall_app]. }
    induction t as [op|l IH|bs IH|c b IHc IHb] using Thunk_ind; simpl.
    - by repeat constructor.
    - by apply Hseq.
    - induction IH as [|b rest Hb _ IHrest]; simpl; [constructor|].
      apply Forall_app; split; [by apply Hseq|done].
    - apply Forall_app; split; by apply Hseq. }
  unfold leaves. induction ts; simpl; [constructor|by apply Forall_app].
Qed.

Lemma length_leaves {Op} (ts : list (Thunk Op)) :
  length (leaves ts) = num_leaves ts.
Proof.
  assert (Hseq : ∀ l : list (Thunk Op),
    Forall (λ t, length (leaves_of t) = num_leaves_of t) l →
    length (concat (map leaves_of l)) = sum_list (map num_leaves_of l)).
  { induction 1 as [|t rest Ht _ IH]; simpl; [done|].
    by rewrite length_app, Ht, IH. }
  apply Hseq, Forall_forall. intros t _.
  induction t as [op|l IH|bs IH|c b IHc IHb] using Thunk_ind; simpl.
  - done.
  - by apply Hseq.
  - induction IH as [|b rest Hb _ IHrest]; simpl; [done|].
    by rewrite length_app, IHrest, (Hseq b Hb).
  - by rewrite length_app, (Hseq c IHc), (Hseq b IHb).
Qed.

Lemma foldl_record_thunk {Op} (visited trace : list (Thunk Op)) :
  foldl (invoke record_thunk) trace visited = trace ++ visited.
Proof.
  revert trace. induction visited as [|t rest IH]; intros trace; simpl.
  - by rewrite app_nil_r.
  - rewrite IH. unfold invoke; simpl. by rewrite <- app_assoc.
Qed.

Lemma foldl_count_call {Op} (visited : list (Thunk Op)) (calls : nat) :
  foldl (invoke count_call) calls visited = (calls + length visited)%nat.
Proof.
  revert calls. induction visited as [|t rest IH]; intros calls; simpl.
  - lia.
  - rewrite IH. unfold invoke; simpl. lia.
Qed.

Lemma elem_of_concat_map {A B} (f : A → list B) (l : list A) (x : B) :
  x ∈ concat (map f l) ↔ ∃ a, a ∈ l ∧ x ∈ f a.
Proof.
  induction l as [|a rest IH]; simpl.
  - split; [by intros ?%elem_of_nil|]. by intros (? & ?%elem_of_nil & _).
  - rewrite elem_of_app, IH. split.
    + intros [Hx|(a' & Hin & Hx)]; [exists a|exists a'];
        rewrite elem_of_cons; auto.
    + intros (a' & [->|Hin]%elem_of_cons & Hx); eauto.
Qed.

Lemma leaves_of_occur {Op} (thunk leaf : Thunk Op) :
  leaf ∈ leaves_of thunk → occurs leaf thunk.
Proof.
  revert leaf.
  induction thunk as [op|ts IH|bs IH|c b IHc IHb] using Thunk_ind;
    intros leaf; simpl.
  - intros ->%list_elem_of_singleton. by apply occurs_here.
  - intros (t & Hin & Hleaf)%elem_of_concat_map.
    rewrite Forall_forall in IH. eapply occurs_in_sequence; eauto.
  - intros (br & Hbr & (t & Hin & Hleaf)%elem_of_concat_map)%elem_of_concat_map.
    rewrite Forall_forall in IH. specialize (IH br Hbr).
    rewrite Forall_forall in IH. eapply occurs_in_branch; eauto.
  - rewrite Forall_forall in IHc, IHb.
    intros [(t & Hin & Hleaf)%elem_of_concat_map
           |(t & Hin & Hleaf)%elem_of_concat_map]%elem_of_app.
    + eapply occurs_in_condition; eauto.
    + eapply occurs_in_body; eauto.
Qed.

Lemma occurs_leaves_of {Op} (thunk leaf : Thunk Op) :
  occurs leaf thunk → leaf ∈ leaves_of thunk.
Proof.
  induction 1 as [op ->|ts t Hin _ IH|bs br t Hbr Hin _ IH
                 |c b t Hin _ IH|c b t Hin _ IH]; simpl.
  - by apply list_elem_of_singleton.
  - apply elem_of_concat_map. eauto.
  - apply elem_of_concat_map. exists br. split; [done|].
    apply elem_of_concat_map. eauto.
  - apply elem_of_app; left. apply elem_of_concat_map. eauto.
  - apply elem_of_app; right. apply elem_of_concat_map. eauto.
Qed.

(** The leaf list holds the leaves found in the trees, and nothing else. *)
Lemma elem_of_leaves {Op} (ts : list (Thunk Op)) (leaf : Thunk Op) :
  leaf ∈ leaves ts ↔ ∃ thunk, thunk ∈ ts ∧ occurs leaf thunk.
Proof.
  unfold leaves. rewrite elem_of_concat_map. split.
  - intros (t & Hin & Hleaf). eauto using leaves_of_occur.
  - intros (t & Hin & Hleaf). eauto using occurs_leaves_of.
Qed.

(** An action that writes the thunk by [f], whatever the state, and the state
    by [g]: the traversal is the map of [f] over the leaves and the fold of
    [g] over them. *)
Lemma ForAllThunks_body_map_fold {Op St : Type}
    (f : Thunk Op → Thunk Op) (g : Thunk Op → St → St) (thunk : Thunk Op) :
  ∀ s, ForAllThunks_body (λ t s, (f t, g t s)) thunk s
       = (map_leaf f thunk, foldl (λ s t, g t s) s (leaves_of thunk)).
Proof.
  set (fn := λ (t : Thunk Op) (s : St), (f t, g t s)).
  assert (Hseq : ∀ ts : list (Thunk Op),
    Forall (λ t, ∀ s, ForAllThunks_body fn t s
                      = (map_leaf f t, foldl (λ s t, g t s) s (leaves_of t)))
           ts →
    ∀ s, ForAllThunks fn ts s
         = (map (map_leaf f) ts, foldl (λ s t, g t s) s (leaves ts))).
  { unfold leaves. induction 1 as [|t rest Ht _ IH]; intros s; [done|].
    rewrite ForAllThunks_cons, Ht, IH. cbn [map concat].
    by rewrite foldl_app. }
  induction thunk as [op|ts IH|bs IH|c b IHc IHb] using Thunk_ind; intros s.
  - done.
  - by rewrite ForAllThunks_body_sequential, (Hseq ts IH).
  - rewrite ForAllThunks_body_conditional.
    assert (Hbranches : ∀ s, ForAllThunks_branches fn bs s
      = (map (map (map_leaf f)) bs,
         foldl (λ s t, g t s) s (concat (map leaves bs))));
      [|by rewrite Hbranches].
    clear s. induction IH as [|br rest Hbr _ IHrest]; intros s; [done|].
    rewrite ForAllThunks_branches_cons, (Hseq br Hbr), IHrest.
    cbn [map concat]. by rewrite foldl_app.
  - rewrite ForAllThunks_body_while, (Hseq c IHc), (Hseq b IHb).
    change (leaves_of (WhileThunk c b)) with (leaves c ++ leaves b).
    by rewrite foldl_app.
Qed.

Lemma ForAllThunks_map_fold_eq {Op St : Type}
    (f : Thunk Op → Thunk Op) (g : Thunk Op → St → St)
    (ts : list (Thunk Op)) (s : St) :
  ForAllThunks (λ t s, (f t, g t s)) ts s
  = (map_leaves f ts, foldl (λ s t, g t s) s (leaves ts)).
Proof.
  revert s. unfold map_leaves, leaves.
  induction ts as [|t rest IH]; intros s; [done|].
  rewrite ForAllThunks_cons, ForAllThunks_body_map_fold, IH.
  cbn [map concat]. by rewrite foldl_app.
Qed.

(** The equations of the rewriting of the leaves by position. *)
Lemma imap_leaf_sequential {Op} (f : nat → Thunk Op → Thunk Op) (i : nat)
    (ts : list (Thunk Op)) :
  imap_leaf f i (SequentialThunk ts) = SequentialThunk (imap_leaves f i ts).
Proof. reflexivity. Qed.

Lemma imap_leaf_conditional {Op} (f : nat → Thunk Op → Thunk Op) (i : nat)
    (bs : list (list (Thunk Op))) :
  imap_leaf f i (ConditionalThunk bs)
  = ConditionalThunk (imap_branches f i bs).
Proof. reflexivity. Qed.

Lemma imap_leaf_while {Op} (f : nat → Thunk Op → Thunk Op) (i : nat)
    (c b : list (Thunk Op)) :
  imap_leaf f i (WhileThunk c b)
  = WhileThunk (imap_leaves f i c)
               (imap_leaves f (i + length (leaves c))%nat b).
Proof. reflexivity. Qed.

Section ForAllThunks_trees.
Context {Op St : Type} (fn : Thunk Op → St → Thunk Op * St) (s0 : St).

(** The traversal of a sequence that comes after the leaves [pre] and before
    the leaves [post], once the traversal of each of its thunks is known. *)
Lemma ForAllThunks_imap_of_body (ts : list (Thunk Op)) :
  Forall (λ t, ∀ pre post,
    ForAllThunks_body fn t (foldl (invoke fn) s0 pre)
    = (imap_leaf (rewritten fn s0 (pre ++ leaves_of t ++ post))
         (length pre) t,
       foldl (invoke fn) s0 (pre ++ leaves_of t))) ts →
  ∀ pre post,
    ForAllThunks fn ts (foldl (invoke fn) s0 pre)
    = (imap_leaves (rewritten fn s0 (pre ++ leaves ts ++ post))
         (length pre) ts,
       foldl (invoke fn) s0 (pre ++ leaves ts)).
Proof.
  unfold leaves. induction 1 as [|t rest Ht _ IH]; intros pre post.
  - simpl. by rewrite app_nil_r.
  - rewrite ForAllThunks_cons. cbn [map concat imap_leaves].
    rewrite (Ht pre (concat (map leaves_of rest) ++ post)).
    rewrite (IH (pre ++ leaves_of t) post).
    rewrite length_app, <- !app_assoc. done.
Qed.

Lemma ForAllThunks_imap_of_branches (bs : list (list (Thunk Op))) :
  Forall (λ b, ∀ pre post,
    ForAllThunks fn b (foldl (invoke fn) s0 pre)
    = (imap_leaves (rewritten fn s0 (pre ++ leaves b ++ post))
         (length pre) b,
       foldl (invoke fn) s0 (pre ++ leaves b))) bs →
  ∀ pre post,
    ForAllThunks_branches fn bs (foldl (invoke fn) s0 pre)
    = (imap_branches
         (rewritten fn s0 (pre ++ concat (map leaves bs) ++ post))
         (length pre) bs,
       foldl (invoke fn) s0 (pre ++ concat (map leaves bs))).
Proof.
  induction 1 as [|b rest Hb _ IH]; intros pre post.
  - simpl. by rewrite app_nil_r.
  - rewrite ForAllThunks_branches_cons. cbn [map concat imap_branches].
    rewrite (Hb pre (concat (map leaves rest) ++ post)).
    rewrite (IH (pre ++ leaves b) post).
    rewrite length_app, <- !app_assoc. done.
Qed.

Lemma ForAllThunks_body_imap (thunk : Thunk Op) :
  ∀ pre post,
    ForAllThunks_body fn thunk (foldl (invoke fn) s0 pre)
    = (imap_leaf (rewritten fn s0 (pre ++ leaves_of thunk ++ post))
         (length pre) thunk,
       foldl (invoke fn) s0 (pre ++ leaves_of thunk)).
Proof.
  induction thunk as [op|ts IH|bs IH|c b IHc IHb] using Thunk_ind;
    intros pre post.
  - cbn [ForAllThunks_body imap_leaf leaves_of]. unfold rewritten.
    rewrite take_app_length, foldl_app. cbn [foldl]. unfold invoke at 3.
    by destruct (fn (LeafThunk op) (foldl (invoke fn) s0 pre)).
  - rewrite ForAllThunks_body_sequential, imap_leaf_sequential.
    change (leaves_of (SequentialThunk ts)) with (leaves ts).
    by rewrite (ForAllThunks_imap_of_body ts IH pre post).
  - rewrite ForAllThunks_body_conditional, imap_leaf_conditional.
    change (leaves_of (ConditionalThunk bs)) with (concat (map leaves bs)).
    pose proof (Forall_impl _ _ _ IH ForAllThunks_imap_of_body) as Hbs.
    by rewrite (ForAllThunks_imap_of_branches bs Hbs pre post).
  - rewrite ForAllThunks_body_while, imap_leaf_while.
    change (leaves_of (WhileThunk c b)) with (leaves c ++ leaves b).
    rewrite (ForAllThunks_imap_of_body c IHc pre (leaves b ++ post)).
    rewrite (ForAllThunks_imap_of_body b IHb (pre ++ leaves c) post).
    rewrite length_app, <- !app_assoc. done.
Qed.

(** The tree after a traversal: every leaf is what the action wrote to it
    when it was invoked on it after the leaves before it, and every other
    node is in its place. *)
Lemma ForAllThunks_tree (ts : list (Thunk Op)) :
  (ForAllThunks fn ts s0).1 = imap_leaves (rewritten fn s0 (leaves ts)) 0 ts.
Proof.
  pose proof (ForAllThunks_imap_of_body ts) as Hts.
  specialize (Hts (proj2 (Forall_forall _ _)
                     (λ t _, ForAllThunks_body_imap t)) [] []).
  simpl in Hts. rewrite app_nil_r in Hts. by rewrite Hts.
Qed.
End ForAllThunks_trees.

Lemma map_leaves_id {Op} (ts : list (Thunk Op)) : map_leaves id ts = ts.
Proof.
  assert (Hseq : ∀ l : list (Thunk Op),
    Forall (λ t, map_leaf id t = t) l → map (map_leaf id) l = l).
  { induction 1 as [|t rest Ht _ IH]; [done|].
    cbn [map]. by rewrite Ht, IH. }
  apply Hseq, Forall_forall. intros t _.
  induction t as [op|l IH|bs IH|c b IHc IHb] using Thunk_ind;
    cbn [map_leaf].
  - done.
  - by rewrite (Hseq l IH).
  - f_equal. induction IH as [|br rest Hbr _ IHrest]; [done|].
    cbn [map]. by rewrite (Hseq br Hbr), IHrest.
  - by rewrite (Hseq c IHc), (Hseq b IHb).
Qed.

(** The traversal of [nested_thunks] meets the leaves 1 to 8 in this order,
    and leaves the tree as it is when the action does. *)
Example ForAllThunks_nested_thunks :
  ForAllThunks record_thunk nested_thunks []
  = (nested_thunks,
     [LeafThunk 1; LeafThunk 2; LeafThunk 3; LeafThunk 4; LeafThunk 5;
      LeafThunk 6; LeafThunk 7; LeafThunk 8]%nat).
Proof. reflexivity. Qed.

Example ForAllThunks_counts_nested_thunks :
  (ForAllThunks count_call nested_thunks 0%nat).2 = 8%nat
  ∧ num_leaves nested_thunks = 8%nat.
Proof. split; reflexivity. Qed.

(** With the numbering action every leaf of [nested_thunks] is rewritten to
    its position in tree order. *)
Example ForAllThunks_numbers_nested_thunks :
  ForAllThunks number_thunk nested_thunks 0%nat
  = (imap_leaves (λ i _, LeafThunk i) 0 nested_thunks, 8%nat).
Proof. reflexivity. Qed.

(** C2.  For every thunk tree, every action and every initial state: the
    traversal invokes the action on the leaves of the tree and on nothing
    else, once per leaf and in tree order, so that the state it leaves is the
    fold of the action over the leaves; the trace of a recording action is
    the list of leaves; a thunk is in the trace exactly if it is a leaf found
    in the tree, and every thunk of the trace is a leaf; for a loop the whole
    condition sequence is traversed before the body; and a counting action
    is invoked as many times as the tree has leaves.  The tree it leaves has
    every composite node in its place and, for each leaf, what the action
    wrote to that leaf when it was invoked on it in the state left by the
    leaves before it: with an action that writes the thunk by [f] and the
    state by [g] it is the tree with [f] applied to every leaf, and with the
    recording action it is the tree as it was. *)
Theorem ForAllThunks_visits_each_leaf_once {Op St : Type}
    (fn : Thunk Op → St → Thunk Op * St)
    (thunk_sequence : list (Thunk Op)) (s : St) :
  (ForAllThunks fn thunk_sequence s).2
    = foldl (λ acc leaf, (fn leaf acc).2) s (leaves thunk_sequence)
  ∧ (ForAllThunks record_thunk thunk_sequence []).2 = leaves thunk_sequence
  ∧ (∀ leaf, leaf ∈ (ForAllThunks record_thunk thunk_sequence []).2
             ↔ ∃ thunk, thunk ∈ thunk_sequence ∧ occurs leaf thunk)
  ∧ Forall is_leaf (ForAllThunks record_thunk thunk_sequence []).2
  ∧ (∀ c b, (ForAllThunks fn [WhileThunk c b] s).2
            = (ForAllThunks fn b (ForAllThunks fn c s).2).2)
  ∧ (ForAllThunks count_call thunk_sequence 0%nat).2
    = num_leaves thunk_sequence
  ∧ length (ForAllThunks record_thunk thunk_sequence []).2
    = num_leaves thunk_sequence
  ∧ (ForAllThunks fn thunk_sequence s).1
    = imap_leaves
        (λ i leaf,
           (fn leaf (foldl (λ acc leaf, (fn leaf acc).2) s
                       (take i (leaves thunk_sequence)))).1)
        0 thunk_sequence
  ∧ (∀ (f : Thunk Op → Thunk Op) (g : Thunk Op → St → St),
       ForAllThunks (λ t s, (f t, g t s)) thunk_sequence s
       = (map_leaves f thunk_sequence,
          foldl (λ s t, g t s) s (leaves thunk_sequence)))
  ∧ (ForAllThunks record_thunk thunk_sequence []).1 = thunk_sequence.
Proof.
  assert (Htrace :
    (ForAllThunks record_thunk thunk_sequence []).2 = leaves thunk_sequence).
  { by rewrite ForAllThunks_state, foldl_record_thunk. }
  split_and!.
  - apply ForAllThunks_state.
  - exact Htrace.
  - intros leaf. rewrite Htrace. apply elem_of_leaves.
  - rewrite Htrace. apply leaves_are_leaves.
  - intros c b. apply ForAllThunks_while_order.
  - rewrite ForAllThunks_state, foldl_count_call. apply length_leaves.
  - rewrite Htrace. apply length_leaves.
  - exact (ForAllThunks_tree fn s thunk_sequence).
  - intros f g. apply ForAllThunks_map_fold_eq.
  - unfold record_thunk.
    rewrite (ForAllThunks_map_fold_eq id (λ t trace, trace ++ [t])).
    apply map_leaves_id.
Qed.

(** ** The signature verifier *)

Section GetMlirAllocationInfo_facts.
Context {ElementType BufferAllocation Allocated : Type}.
Context (GetElementTypeBytes : ElementType → Z + Status).
Context (ret_check_failure : string → Status).

Lemma verify_attrs_cases (attrs : list NamedAttribute) :
  verify_attrs ret_check_failure attrs = Ok tt
  ∨ verify_attrs ret_check_failure attrs
    = Error (ret_check_failure known_arg_attr_text).
Proof.
  induction attrs as [|attr rest IH]; simpl; [by left|].
  destruct (known_arg_attr (getName attr)); simpl; [done|by right].
Qed.

Lemma verify_attrs_unknown (attrs : list NamedAttribute)
    (attr : NamedAttribute) :
  attr ∈ attrs → known_arg_attr (getName attr) = false →
  verify_attrs ret_check_failure attrs
  = Error (ret_check_failure known_arg_attr_text).
Proof.
  intros Hin Hunknown. induction attrs as [|head rest IH].
  - by apply elem_of_nil in Hin.
  - simpl. apply elem_of_cons in Hin as [<-|Hin].
    + by rewrite Hunknown.
    + destruct (known_arg_attr (getName head)); simpl; [by apply IH|done].
Qed.

Lemma verify_arg_attrs_unknown (func : FuncOp ElementType) :
  has_unknown_arg_attr func →
  verify_arg_attrs ret_check_failure (getArguments func)
  = Error (ret_check_failure known_arg_attr_text).
Proof.
  intros (arg & attr & Harg & Hattr & Hunknown).
  induction (getArguments func) as [|head rest IH].
  - by apply elem_of_nil in Harg.
  - simpl. apply elem_of_cons in Harg as [<-|Harg].
    + by rewrite (verify_attrs_unknown _ attr).
    + destruct (verify_attrs_cases (getArgAttrs head)) as [-> | ->]; simpl;
        [by apply IH|done].
Qed.

(** The first loop returns the sizes or a status; no [CHECK] is in it. *)
Lemma buffer_sizes_of_cases (args : list (BlockArgument ElementType)) :
  buffer_sizes_of GetElementTypeBytes ret_check_failure args ≠ CheckFailure.
Proof.
  induction args as [|arg rest IH]; simpl; [done|].
  destruct (getType arg) as [element_type n|]; [|done].
  destruct (GetElementTypeBytes element_type); simpl; [|done].
  by destruct (buffer_sizes_of _ _ rest).
Qed.
End GetMlirAllocationInfo_facts.

(** C5, as the spec words it, fails.  On the signature [unverifiable_func]
    the verifier returns the status of its [TF_RET_CHECK] when it is given an
    empty vector of allocations, but given a vector that is not empty its
    [CHECK] fails and nothing is returned; and [CompileModuleToLlvmIr], which
    takes no function signature and calls the verifier nowhere, returns its
    results. *)
Lemma compilation_does_not_verify_signatures :
  has_unknown_arg_attr unverifiable_func
  ∧ GetMlirAllocationInfo element_type_bytes_of internal_error
      set_up_allocation unverifiable_func ([] : list nat)
    = Error (internal_error known_arg_attr_text)
  ∧ GetMlirAllocationInfo element_type_bytes_of internal_error
      set_up_allocation unverifiable_func [0%nat]
    = CheckFailure
  ∧ is_ok (CompileModuleToLlvmIr 128%Z rocm_platform_id planner
             output_info_of emitter clear_kernel shared_constants_module
             "nvptx64-nvidia-cuda" "e-i64:64" "CUDA" cuda_platform_id)
    = true.
Proof.
  split_and!; try reflexivity.
  exists (MkArg (ShapedType "f32" 4%Z)
            [MkAttr "lmhlo.params" "0"; MkAttr "lmhlo.written" "unit"]),
         (MkAttr "lmhlo.written" "unit").
  split_and!; [|apply elem_of_cons; right|reflexivity];
    apply elem_of_cons; by left.
Qed.

(** C5, amended.  Called with an empty vector of allocations on a signature
    in which some argument carries an attribute whose name is none of
    [lmhlo.params], [lmhlo.param_shape_index], [lmhlo.constant_name],
    [lmhlo.must_alias], [lmhlo.output_index], the verifier returns a status
    that is not OK, whatever [SetUpMlirAllocation] would do: the status of
    the failed [TF_RET_CHECK] on the attribute name when the first loop
    returns the sizes, the status of the first loop otherwise. *)
Theorem GetMlirAllocationInfo_rejects_unknown_arg_attr
    {ElementType BufferAllocation Allocated : Type}
    (GetElementTypeBytes : ElementType → Z + Status)
    (ret_check_failure : string → Status)
    (func : FuncOp ElementType) :
  has_unknown_arg_attr func →
  ∃ st, (∀ SetUpMlirAllocation : FuncOp ElementType → list Z → Outcome Allocated,
           GetMlirAllocationInfo GetElementTypeBytes ret_check_failure
             SetUpMlirAllocation func ([] : list BufferAllocation) = Error st)
        ∧ (is_ok (buffer_sizes_of GetElementTypeBytes ret_check_failure
                    (getArguments func)) = true →
           st = ret_check_failure known_arg_attr_text).
Proof.
  intros Hunknown. unfold GetMlirAllocationInfo.
  pose proof (buffer_sizes_of_cases GetElementTypeBytes ret_check_failure
                (getArguments func)) as Hsizes.
  destruct (buffer_sizes_of _ _ (getArguments func)) as [sizes|st|]; [| |done].
  - exists (ret_check_failure known_arg_attr_text). split; [|done].
    intros SetUp. simpl. by rewrite verify_arg_attrs_unknown.
  - exists st. split; [done|]. discriminate.
Qed.

Lemma GetMlirAllocationInfo_rejects_unknown_arg_attr_witness :
  ∃ st, (∀ SetUpMlirAllocation : FuncOp string → list Z → Outcome (list Z),
           GetMlirAllocationInfo element_type_bytes_of internal_error
             SetUpMlirAllocation unverifiable_func ([] : list nat) = Error st)
        ∧ (is_ok (buffer_sizes_of element_type_bytes_of internal_error
                    (getArguments unverifiable_func)) = true →
           st = internal_error known_arg_attr_text).
Proof.
  apply (GetMlirAllocationInfo_rejects_unknown_arg_attr
           element_type_bytes_of internal_error unverifiable_func).
  exists (MkArg (ShapedType "f32" 4%Z)
            [MkAttr "lmhlo.params" "0"; MkAttr "lmhlo.written" "unit"]),
         (MkAttr "lmhlo.written" "unit").
  split_and!; [|apply elem_of_cons; right|reflexivity];
    apply elem_of_cons; by left.
Defined.

(** ** The compilation *)

(** The compilation of [shared_constants_module] on CUDA: the global of the
    unused constant with content is gone, the compile-time information of
    both kernels is cleared. *)
Example CompileModuleToLlvmIr_on_cuda :
  CompileModuleToLlvmIr 128%Z rocm_platform_id planner output_info_of emitter
    clear_kernel shared_constants_module
    "nvptx64-nvidia-cuda" "e-i64:64" "CUDA" cuda_platform_id
  = Ok {| results_llvm_module :=
            MkModule "nvptx64-nvidia-cuda" "e-i64:64"
              {["buffer_for_constant_2" := unused_global]};
          results_buffer_assignment := 128%Z;
          results_executable :=
            [WhileThunk [LeafThunk (MkKernelOp "condition" None)]
                        [LeafThunk (MkKernelOp "body" None)]];
          results_constants := [constant_1; constant_2];
          results_output_info := tt;
          results_output_shape := "f32[4]";
          results_module_name := "module_0001";
          results_use_original_allocations := true |}.
Proof. reflexivity. Qed.

(** On ROCm, and on CUDA without the flag, both globals stay. *)
Example CompileModuleToLlvmIr_on_rocm :
  results_llvm_module <$>
    match CompileModuleToLlvmIr 128%Z rocm_platform_id planner output_info_of
            emitter clear_kernel shared_constants_module
            "amdgcn-amd-amdhsa" "e-p:64:64" "ROCM" rocm_platform_id with
    | Ok results => Some results
    | _ => None
    end
  = Some (MkModule "amdgcn-amd-amdhsa" "e-p:64:64" (globals emitted_module)).
Proof. reflexivity. Qed.

Example CompileModuleToLlvmIr_without_shared_constants :
  results_llvm_module <$>
    match CompileModuleToLlvmIr 128%Z rocm_platform_id planner output_info_of
            emitter clear_kernel private_constants_module
            "nvptx64-nvidia-cuda" "e-i64:64" "CUDA" cuda_platform_id with
    | Ok results => Some results
    | _ => None
    end
  = Some (MkModule "nvptx64-nvidia-cuda" "e-i64:64" (globals emitted_module)).
Proof. reflexivity. Qed.

(** C10.  The alignment function that [CompileModuleToLlvmIr] hands to the
    buffer assigner returns [kXlaAllocatedBufferAlignBytes] for every color,
    hence the same value for any two colors; and a planner that reports the
    alignment it is given at a color of its choice reports that constant. *)
Theorem color_alignment_constant
    {Shape HloComputation PlatformId : Type} `{EqDecision PlatformId}
    (kXlaAllocatedBufferAlignBytes : Z) (color other probe : Color)
    (kROCmPlatformId platform_id : PlatformId)
    (module : HloModule Shape HloComputation)
    (target_triple data_layout platform_name : string) :
  color_alignment kXlaAllocatedBufferAlignBytes color
    = kXlaAllocatedBufferAlignBytes
  ∧ color_alignment kXlaAllocatedBufferAlignBytes color
    = color_alignment kXlaAllocatedBufferAlignBytes other
  ∧ ∃ results,
      CompileModuleToLlvmIr (Op := unit) kXlaAllocatedBufferAlignBytes
        kROCmPlatformId
        (λ _ alignment _ _, Ok (alignment probe))
        (λ _ _, Ok tt)
        (λ context _, Ok (context, []))
        id module target_triple data_layout platform_name platform_id
      = Ok results
      ∧ results_buffer_assignment results = kXlaAllocatedBufferAlignBytes.
Proof.
  split_and!; [done..|].
  unfold CompileModuleToLlvmIr. simpl.
  destruct (supports_runtime_managed_constants _ _ _); simpl; eauto.
Qed.

(** C4.  Once the planner, [GetOutputInfo] and the emitter have returned, the
    pruning pass runs exactly when the platform is not ROCm and
    [xla_gpu_enable_shared_constants] is set: then the module of the results
    is what [RemoveUnusedAndUninitializedGlobals] leaves of the emitted
    module (and the compilation aborts where the pass aborts); otherwise the
    module of the results is the emitted module, no global removed.  The
    constants of the results are the emitted ones either way. *)
Theorem CompileModuleToLlvmIr_prunes_iff_runtime_managed
    {Shape HloComputation BufferAssignment OutputInfo Op PlatformId : Type}
    `{EqDecision PlatformId}
    (kXlaAllocatedBufferAlignBytes : Z) (kROCmPlatformId : PlatformId)
    (BufferAssigner_Run :
       HloModule Shape HloComputation → (Color → Z) → bool → Colorer
       → Outcome BufferAssignment)
    (GetOutputInfo :
       HloModule Shape HloComputation → BufferAssignment → Outcome OutputInfo)
    (EmitHloComputation :
       IrEmitterContext Shape HloComputation BufferAssignment → HloComputation
       → Outcome (IrEmitterContext Shape HloComputation BufferAssignment
                  * list (Thunk Op)))
    (ClearCompileTimeInfo : Thunk Op → Thunk Op)
    (module : HloModule Shape HloComputation)
    (target_triple data_layout platform_name : string)
    (platform_id : PlatformId)
    (assignment : BufferAssignment) (output_info : OutputInfo)
    (context : IrEmitterContext Shape HloComputation BufferAssignment)
    (thunk_sequence : list (Thunk Op)) :
  BufferAssigner_Run module (color_alignment kXlaAllocatedBufferAlignBytes)
    true
    (if xla_gpu_enable_nccl_user_buffers (debug_options module)
     then CollectiveColorer else DefaultColorer) = Ok assignment →
  GetOutputInfo module assignment = Ok output_info →
  EmitHloComputation
    (MkContext module assignment platform_name
       (MkModule target_triple data_layout ∅) [])
    (entry_computation module) = Ok (context, thunk_sequence) →
  let outcome :=
    CompileModuleToLlvmIr kXlaAllocatedBufferAlignBytes kROCmPlatformId
      BufferAssigner_Run GetOutputInfo EmitHloComputation ClearCompileTimeInfo
      module target_triple data_layout platform_name platform_id in
  let supported :=
    supports_runtime_managed_constants kROCmPlatformId platform_id module in
  (supported = true ↔
   platform_id ≠ kROCmPlatformId
   ∧ xla_gpu_enable_shared_constants (debug_options module) = true)
  ∧ (supported = false →
     ∃ results, outcome = Ok results
       ∧ results_llvm_module results = llvm_module context
       ∧ results_constants results = constants context)
  ∧ (supported = true →
     match RemoveUnusedAndUninitializedGlobals
             (llvm_module context) (constants context) with
     | Ok pruned_module =>
         ∃ results, outcome = Ok results
           ∧ results_llvm_module results = pruned_module
           ∧ results_constants results = constants context
     | Error _ => False
     | CheckFailure => outcome = CheckFailure
     end).
Proof.
  intros Hplan Hinfo Hemit outcome supported. split_and!.
  - unfold supported, supports_runtime_managed_constants.
    by rewrite andb_true_iff, bool_decide_eq_true.
  - intros Hno. unfold outcome, CompileModuleToLlvmIr.
    rewrite Hplan. simpl. rewrite Hinfo. simpl. rewrite Hemit. simpl.
    fold supported. rewrite Hno. simpl. eauto.
  - intros Hyes.
    pose proof (RemoveUnusedAndUninitializedGlobals_no_status
                  (constants context) (llvm_module context)) as Hpass.
    unfold outcome, CompileModuleToLlvmIr.
    rewrite Hplan. simpl. rewrite Hinfo. simpl. rewrite Hemit. simpl.
    fold supported. rewrite Hyes.
    destruct (RemoveUnusedAndUninitializedGlobals _ _); simpl; [eauto|done..].
Qed.

Lemma CompileModuleToLlvmIr_prunes_iff_runtime_managed_witness :
  let outcome :=
    CompileModuleToLlvmIr 128%Z rocm_platform_id planner output_info_of
      emitter clear_kernel shared_constants_module
      "nvptx64-nvidia-cuda" "e-i64:64" "CUDA" cuda_platform_id in
  let supported :=
    supports_runtime_managed_constants rocm_platform_id cuda_platform_id
      shared_constants_module in
  let context :=
    MkContext shared_constants_module 128%Z "CUDA"
      (MkModule "nvptx64-nvidia-cuda" "e-i64:64" (globals emitted_module))
      [constant_1; constant_2] in
  (supported = true ↔
   cuda_platform_id ≠ rocm_platform_id
   ∧ xla_gpu_enable_shared_constants (debug_options shared_constants_module)
     = true)
  ∧ (supported = false →
     ∃ results, outcome = Ok results
       ∧ results_llvm_module results = llvm_module context
       ∧ results_constants results = constants context)
  ∧ (supported = true →
     match RemoveUnusedAndUninitializedGlobals
             (llvm_module context) (constants context) with
     | Ok pruned_module =>
         ∃ results, outcome = Ok results
           ∧ results_llvm_module results = pruned_module
           ∧ results_constants results = constants context
     | Error _ => False
     | CheckFailure => outcome = CheckFailure
     end).
Proof.
  apply (CompileModuleToLlvmIr_prunes_iff_runtime_managed 128%Z
           rocm_platform_id planner output_info_of emitter clear_kernel
           shared_constants_module "nvptx64-nvidia-cuda" "e-i64:64" "CUDA"
           cuda_platform_id 128%Z tt
           (MkContext shared_constants_module 128%Z "CUDA"
              (MkModule "nvptx64-nvidia-cuda" "e-i64:64"
                 (globals emitted_module))
              [constant_1; constant_2])
           emitted_thunks); reflexivity.
Defined.

(** ** The device linker *)

Lemma capability_ltb_irreflexive (cc : CudaComputeCapability) :
  capability_ltb cc cc = false.
Proof.
  unfold capability_ltb.
  by rewrite !Z.ltb_irrefl, andb_false_r.
Qed.

Lemma exceeds_every_architecture_true (supported : list CudaComputeCapability)
    (cc : CudaComputeCapability) :
  exceeds_every_architecture supported cc = true ↔
  ∀ architecture, architecture ∈ supported →
                  capability_ltb architecture cc = true.
Proof.
  unfold exceeds_every_architecture. rewrite forallb_forall.
  by setoid_rewrite list_elem_of_In.
Qed.

Lemma supported_not_exceeding (supported : list CudaComputeCapability)
    (cc : CudaComputeCapability) :
  cc ∈ supported → exceeds_every_architecture supported cc = false.
Proof.
  intros Hin. apply not_true_is_false. intros Hall.
  rewrite exceeds_every_architecture_true in Hall.
  specialize (Hall cc Hin). by rewrite capability_ltb_irreflexive in Hall.
Qed.

Lemma compile_units_not_cancelled (options : LinkOptions)
    (units : list NvJitLinkInput) :
  (∀ input, input ∈ units → cancels options input = false) →
  compile_units options units = (units, false).
Proof.
  induction units as [|input rest IH]; intros Hnone; [done|].
  simpl.
  rewrite (Hnone input) by (apply elem_of_cons; by left).
  rewrite IH; [done|]. intros other Hin. apply Hnone, elem_of_cons. by right.
Qed.

Lemma compile_units_cancelled (options : LinkOptions)
    (units : list NvJitLinkInput) (input : NvJitLinkInput) :
  input ∈ units → cancels options input = true →
  (compile_units options units).2 = true.
Proof.
  induction units as [|head rest IH]; intros Hin Hspill.
  - by apply elem_of_nil in Hin.
  - simpl. destruct (cancels options head) eqn:Hhead; [done|].
    apply elem_of_cons in Hin as [->|Hin]; [congruence|].
    specialize (IH Hin Hspill).
    by destruct (compile_units options rest).
Qed.

Lemma symbols_resolved_true (units : list NvJitLinkInput) :
  symbols_resolved units = true ↔
  ∀ input symbol, input ∈ units → symbol ∈ referenced_symbols input →
                  symbol ∈ batch_symbols units.
Proof.
  unfold symbols_resolved. rewrite forallb_forall. split.
  - intros Hall input symbol Hin Hsym.
    apply list_elem_of_In in Hin, Hsym.
    specialize (Hall input Hin). rewrite forallb_forall in Hall.
    specialize (Hall symbol Hsym). by apply bool_decide_eq_true_1 in Hall.
  - intros Hall input Hin. apply forallb_forall. intros symbol Hsym.
    apply bool_decide_eq_true_2, (Hall input); by apply list_elem_of_In.
Qed.

Lemma symbols_resolved_false (units : list NvJitLinkInput)
    (input : NvJitLinkInput) (symbol : string) :
  input ∈ units → symbol ∈ referenced_symbols input →
  symbol ∉ batch_symbols units → symbols_resolved units = false.
Proof.
  intros Hin Hsym Hmissing. apply not_true_is_false. intros Hall.
  rewrite symbols_resolved_true in Hall. by apply Hmissing, (Hall input).
Qed.

Lemma CompileAndLink_links (supported : list CudaComputeCapability)
    (cc : CudaComputeCapability) (units : list NvJitLinkInput)
    (options : LinkOptions) :
  cc ∈ supported →
  (∀ input, input ∈ units → cancels options input = false) →
  symbols_resolved units = true →
  CompileAndLink supported cc units options
  = MkLinkRun units (inl (MkBinary cc (batch_symbols units))).
Proof.
  intros Hcc Hnone Hresolved. unfold CompileAndLink.
  by rewrite supported_not_exceeding, compile_units_not_cancelled, Hresolved.
Qed.

(** C6.  A capability that exceeds every architecture of the toolchain makes
    the request fail with [UnsupportedArchitecture], the code
    [kUnimplemented] of the test, whatever the units and the options are, and
    no unit has been compiled by then. *)
Theorem CompileAndLink_unsupported_architecture
    (supported : list CudaComputeCapability) (cc : CudaComputeCapability)
    (units : list NvJitLinkInput) (options : LinkOptions) :
  (∀ architecture, architecture ∈ supported →
                   capability_ltb architecture cc = true) →
  CompileAndLink supported cc units options
    = MkLinkRun [] (inr UnsupportedArchitecture)
  ∧ StatusIs (link_result (CompileAndLink supported cc units options))
      kUnimplemented
  ∧ (∀ disable_gpuasm_optimizations cancel_if_reg_spill,
       CompileAndLinkHelper supported cc units disable_gpuasm_optimizations
         cancel_if_reg_spill = inr UnsupportedArchitecture).
Proof.
  intros Hexceeds. apply exceeds_every_architecture_true in Hexceeds.
  unfold CompileAndLinkHelper, CompileAndLink. rewrite Hexceeds. done.
Qed.

Lemma CompileAndLink_unsupported_architecture_witness :
  CompileAndLink cuda_12_architectures (MkCapability 100 0) [kStandalonePtx]
      (MkLinkOptions false false)
    = MkLinkRun [] (inr UnsupportedArchitecture)
  ∧ StatusIs (link_result
                (CompileAndLink cuda_12_architectures (MkCapability 100 0)
                   [kStandalonePtx] (MkLinkOptions false false)))
      kUnimplemented
  ∧ (∀ disable_gpuasm_optimizations cancel_if_reg_spill,
       CompileAndLinkHelper cuda_12_architectures (MkCapability 100 0)
         [kStandalonePtx] disable_gpuasm_optimizations cancel_if_reg_spill
       = inr UnsupportedArchitecture).
Proof.
  apply (CompileAndLink_unsupported_architecture cuda_12_architectures
           (MkCapability 100 0) [kStandalonePtx] (MkLinkOptions false false)).
  apply exceeds_every_architecture_true. reflexivity.
Defined.

(** C8.  At a capability the toolchain supports, a request of one unit that
    refers to no symbol it does not define itself is linked: the unit is
    compiled and the result is a binary for that capability that defines the
    symbols of the unit.  (The request is taken not to be one that asks to
    cancel on spilling for a unit that spills, the case of C3.) *)
Theorem CompileAndLink_single_self_contained_unit
    (supported : list CudaComputeCapability) (cc : CudaComputeCapability)
    (input : NvJitLinkInput) (options : LinkOptions) :
  cc ∈ supported →
  (∀ symbol, symbol ∈ referenced_symbols input →
             symbol ∈ defined_symbols input) →
  cancels options input = false →
  CompileAndLink supported cc [input] options
    = MkLinkRun [input] (inl (MkBinary cc (defined_symbols input)))
  ∧ StatusIs (link_result (CompileAndLink supported cc [input] options)) kOk.
Proof.
  intros Hcc Hself Hquiet.
  assert (Hsymbols : batch_symbols [input] = defined_symbols input).
  { unfold batch_symbols. simpl. apply app_nil_r. }
  rewrite CompileAndLink_links, Hsymbols; [done..| |].
  - intros other Hin. apply elem_of_cons in Hin as [->|Hin]; [done|].
    by apply elem_of_nil in Hin.
  - apply symbols_resolved_true. intros other symbol Hin Hsym.
    apply elem_of_cons in Hin as [->|Hin]; [|by apply elem_of_nil in Hin].
    rewrite Hsymbols. by apply Hself.
Qed.

Lemma CompileAndLink_single_self_contained_unit_witness :
  CompileAndLink cuda_12_architectures kDefaultComputeCapability
      [kStandalonePtx] (MkLinkOptions false false)
    = MkLinkRun [kStandalonePtx]
        (inl (MkBinary kDefaultComputeCapability
                (defined_symbols kStandalonePtx)))
  ∧ StatusIs (link_result
                (CompileAndLink cuda_12_architectures
                   kDefaultComputeCapability [kStandalonePtx]
                   (MkLinkOptions false false))) kOk.
Proof.
  apply (CompileAndLink_single_self_contained_unit cuda_12_architectures
           kDefaultComputeCapability kStandalonePtx
           (MkLinkOptions false false)).
  - apply elem_of_cons; right. apply elem_of_cons; by left.
  - intros symbol Hin. by apply elem_of_nil in Hin.
  - reflexivity.
Defined.

(** C7.  At a supported capability and with no unit cancelled for spilling:
    a unit that refers to a symbol it does not define, given alone, is
    compiled and then fails to link, with [UnresolvedSymbol], the code
    [kUnknown] of the test; given together with a second unit such that the
    two define every symbol either refers to, it is linked, and the binary
    defines the symbol. *)
Theorem CompileAndLink_unresolved_symbol
    (supported : list CudaComputeCapability) (cc : CudaComputeCapability)
    (dependent dependee : NvJitLinkInput) (options : LinkOptions)
    (symbol : string) :
  cc ∈ supported →
  symbol ∈ referenced_symbols dependent →
  symbol ∉ defined_symbols dependent →
  cancels options dependent = false →
  cancels options dependee = false →
  (∀ s, s ∈ referenced_symbols dependent ++ referenced_symbols dependee →
        s ∈ defined_symbols dependent ++ defined_symbols dependee) →
  CompileAndLink supported cc [dependent] options
    = MkLinkRun [dependent] (inr UnresolvedSymbol)
  ∧ StatusIs (link_result (CompileAndLink supported cc [dependent] options))
      kUnknown
  ∧ ∃ binary,
      CompileAndLink supported cc [dependent; dependee] options
        = MkLinkRun [dependent; dependee] (inl binary)
      ∧ symbol ∈ binary_symbols binary.
Proof.
  intros Hcc Href Hundef Hq1 Hq2 Hclosed.
  assert (Hpair : batch_symbols [dependent; dependee]
                  = defined_symbols dependent ++ defined_symbols dependee).
  { unfold batch_symbols. simpl. by rewrite app_nil_r. }
  assert (Halone : CompileAndLink supported cc [dependent] options
                   = MkLinkRun [dependent] (inr UnresolvedSymbol)).
  { unfold CompileAndLink.
    rewrite supported_not_exceeding by done.
    rewrite compile_units_not_cancelled.
    - rewrite (symbols_resolved_false [dependent] dependent symbol);
        [done|by apply elem_of_cons; left|done|].
      unfold batch_symbols. simpl. by rewrite app_nil_r.
    - intros other Hin. apply elem_of_cons in Hin as [->|Hin]; [done|].
      by apply elem_of_nil in Hin. }
  rewrite Halone. split_and!; [done..|].
  eexists. split.
  - apply CompileAndLink_links; [done| |].
    + intros other Hin. apply elem_of_cons in Hin as [->|Hin]; [done|].
      apply elem_of_cons in Hin as [->|Hin]; [done|].
      by apply elem_of_nil in Hin.
    + apply symbols_resolved_true. intros other s Hin Hs.
      rewrite Hpair. apply Hclosed, elem_of_app.
      apply elem_of_cons in Hin as [->|Hin]; [by left|].
      apply elem_of_cons in Hin as [->|Hin]; [by right|].
      by apply elem_of_nil in Hin.
  - simpl. rewrite Hpair. apply Hclosed, elem_of_app. by left.
Qed.

Lemma CompileAndLink_unresolved_symbol_witness :
  CompileAndLink cuda_12_architectures kDefaultComputeCapability
      [kDependentPtx] (MkLinkOptions false false)
    = MkLinkRun [kDependentPtx] (inr UnresolvedSymbol)
  ∧ StatusIs (link_result
                (CompileAndLink cuda_12_architectures
                   kDefaultComputeCapability [kDependentPtx]
                   (MkLinkOptions false false))) kUnknown
  ∧ ∃ binary,
      CompileAndLink cuda_12_architectures kDefaultComputeCapability
          [kDependentPtx; kDependeePtx] (MkLinkOptions false false)
        = MkLinkRun [kDependentPtx; kDependeePtx] (inl binary)
      ∧ "_Z5magicv" ∈ binary_symbols binary.
Proof.
  apply (CompileAndLink_unresolved_symbol cuda_12_architectures
           kDefaultComputeCapability kDependentPtx kDependeePtx
           (MkLinkOptions false false) "_Z5magicv").
  - apply elem_of_cons; right. apply elem_of_cons; by left.
  - apply elem_of_cons; by left.
  - intros Hin. apply elem_of_cons in Hin as [Heq|Hin]; [discriminate|].
    by apply elem_of_nil in Hin.
  - reflexivity.
  - reflexivity.
  - intros s Hin. simpl in Hin. apply elem_of_cons in Hin as [->|Hin].
    + simpl. apply elem_of_cons; right. apply elem_of_cons; by left.
    + by apply elem_of_nil in Hin.
Defined.

(** C3.  At a supported capability, for a batch whose symbols are all
    resolved and one of whose units spills registers when optimizations are
    disabled: with optimizations disabled and [cancelOnRegisterSpill] set the
    request fails with [RegisterSpillCancelled], the code [kCancelled] of the
    test; with optimizations disabled and [cancelOnRegisterSpill] unset the
    same batch at the same capability is compiled whole and linked into a
    binary. *)
Theorem CompileAndLink_cancels_on_register_spill
    (supported : list CudaComputeCapability) (cc : CudaComputeCapability)
    (units : list NvJitLinkInput) (input : NvJitLinkInput) :
  cc ∈ supported →
  symbols_resolved units = true →
  input ∈ units →
  spills_registers input true = true →
  link_result (CompileAndLink supported cc units (MkLinkOptions true true))
    = inr RegisterSpillCancelled
  ∧ StatusIs
      (link_result (CompileAndLink supported cc units (MkLinkOptions true true)))
      kCancelled
  ∧ CompileAndLink supported cc units (MkLinkOptions true false)
    = MkLinkRun units (inl (MkBinary cc (batch_symbols units))).
Proof.
  intros Hcc Hresolved Hin Hspills.
  assert (Hcancelled :
    link_result (CompileAndLink supported cc units (MkLinkOptions true true))
    = inr RegisterSpillCancelled).
  { unfold CompileAndLink. rewrite supported_not_exceeding by done.
    pose proof (compile_units_cancelled (MkLinkOptions true true) units input
                  Hin) as Hstop.
    destruct (compile_units _ units) as [compiled cancelled]. simpl in Hstop.
    by rewrite Hstop. }
  rewrite Hcancelled. split_and!; [done..|].
  by apply CompileAndLink_links.
Qed.

Lemma CompileAndLink_cancels_on_register_spill_witness :
  link_result
      (CompileAndLink cuda_12_architectures kDefaultComputeCapability
         [dependent_ptx_maxnreg; kDependeePtx] (MkLinkOptions true true))
    = inr RegisterSpillCancelled
  ∧ StatusIs
      (link_result
         (CompileAndLink cuda_12_architectures kDefaultComputeCapability
            [dependent_ptx_maxnreg; kDependeePtx] (MkLinkOptions true true)))
      kCancelled
  ∧ CompileAndLink cuda_12_architectures kDefaultComputeCapability
      [dependent_ptx_maxnreg; kDependeePtx] (MkLinkOptions true false)
    = MkLinkRun [dependent_ptx_maxnreg; kDependeePtx]
        (inl (MkBinary kDefaultComputeCapability
                (batch_symbols [dependent_ptx_maxnreg; kDependeePtx]))).
Proof.
  apply (CompileAndLink_cancels_on_register_spill cuda_12_architectures
           kDefaultComputeCapability [dependent_ptx_maxnreg; kDependeePtx]
           dependent_ptx_maxnreg).
  - apply elem_of_cons; right. apply elem_of_cons; by left.
  - reflexivity.
  - apply elem_of_cons; by left.
  - reflexivity.
Defined.

(** The tests of [nvjitlink_test.cc] on a CUDA 12 toolchain. *)
Example NvJitLinkTest_IdentifiesUnsupportedArchitecture :
  StatusIs (CompileAndLinkHelper cuda_12_architectures (MkCapability 100 0)
              [kStandalonePtx] false false) kUnimplemented.
Proof. reflexivity. Qed.

Example NvJitLinkTest_LinkingTwoCompilationUnitsSucceeds :
  StatusIs (CompileAndLinkHelper cuda_12_architectures
              kDefaultComputeCapability [kDependentPtx; kDependeePtx]
              false false) kOk.
Proof. reflexivity. Qed.

Example NvJitLinkTest_LinkingFailsWhenDependeeIsMissing :
  StatusIs (CompileAndLinkHelper cuda_12_architectures
              kDefaultComputeCapability [kDependentPtx] false false) kUnknown.
Proof. reflexivity. Qed.

Example NvJitLinkTest_CanAlsoJustCompileSingleCompilationUnit :
  StatusIs (CompileAndLinkHelper cuda_12_architectures
              kDefaultComputeCapability [kStandalonePtx] false false) kOk.
Proof. reflexivity. Qed.

Example NvJitLinkTest_CancelsOnRegSpill :
  StatusIs (CompileAndLinkHelper cuda_12_architectures
              kDefaultComputeCapability [dependent_ptx_maxnreg; kDependeePtx]
              true true) kCancelled
  ∧ StatusIs (CompileAndLinkHelper cuda_12_architectures
                kDefaultComputeCapability
                [dependent_ptx_maxnreg; kDependeePtx] true false) kOk.
Proof. split; reflexivity. Qed.

(** * Further properties *)

(** ** The pruning pass, constant by constant *)

Lemma RemoveUnusedAndUninitializedGlobals_cons (info : ConstantInfo)
    (rest : list ConstantInfo) (m : LlvmModule) :
  RemoveUnusedAndUninitializedGlobals m (info :: rest)
  = prune_constant info m ≫= λ m', RemoveUnusedAndUninitializedGlobals m' rest.
Proof.
  simpl. unfold prune_constant.
  destruct (negb (span_empty (content info))); [|done].
  destruct (getGlobalVariable m (symbol_name info)) as [g|]; [|done].
  by destruct (use_empty g).
Qed.

Lemma missing_global_check_fails (cs : list ConstantInfo) (m : LlvmModule)
    (info : ConstantInfo) :
  info ∈ cs → content info ≠ [] →
  getGlobalVariable m (symbol_name info) = None →
  RemoveUnusedAndUninitializedGlobals m cs = CheckFailure.
Proof.
  revert m. induction cs as [|head rest IH]; intros m Hin Hne Hnone.
  - by apply elem_of_nil in Hin.
  - rewrite RemoveUnusedAndUninitializedGlobals_cons.
    apply elem_of_cons in Hin as [<-|Hin].
    + unfold prune_constant. apply span_empty_cons in Hne.
      by rewrite Hne, Hnone.
    + unfold prune_constant.
      destruct (negb (span_empty (content head))); simpl; [|by apply IH].
      destruct (getGlobalVariable m (symbol_name head)) as [g|]; [|done].
      destruct (use_empty g); simpl; apply IH; try done.
      by apply getGlobalVariable_erase_None.
Qed.

Lemma RemoveUnusedAndUninitializedGlobals_app_eq
    (cs1 cs2 : list ConstantInfo) (m : LlvmModule) :
  RemoveUnusedAndUninitializedGlobals m (cs1 ++ cs2)
  = RemoveUnusedAndUninitializedGlobals m cs1
    ≫= λ m1, RemoveUnusedAndUninitializedGlobals m1 cs2.
Proof.
  revert m. induction cs1 as [|info rest IH]; intros m; [done|].
  rewrite <- app_comm_cons, !RemoveUnusedAndUninitializedGlobals_cons.
  destruct (prune_constant info m) as [m'| |]; simpl; [apply IH|done..].
Qed.

Lemma LlvmModule_eq (m1 m2 : LlvmModule) :
  target_triple m1 = target_triple m2 →
  data_layout m1 = data_layout m2 →
  (∀ name, globals m1 !! name = globals m2 !! name) →
  m1 = m2.
Proof.
  destruct m1 as [t1 l1 g1], m2 as [t2 l2 g2].
  simpl. intros -> -> Hglobals. f_equal. by apply map_eq.
Qed.

(** A name that [getGlobalVariable] does not find is not found after the
    pass. *)
Lemma RemoveUnusedAndUninitializedGlobals_None
    (cs : list ConstantInfo) (m m' : LlvmModule) (name : string) :
  RemoveUnusedAndUninitializedGlobals m cs = Ok m' →
  getGlobalVariable m name = None → getGlobalVariable m' name = None.
Proof.
  revert m. induction cs as [|info rest IH]; intros m Hrun Hnone.
  - injection Hrun as <-. done.
  - rewrite RemoveUnusedAndUninitializedGlobals_cons in Hrun.
    unfold prune_constant in Hrun.
    destruct (negb (span_empty (content info))); simpl in Hrun; [|by eauto].
    destruct (getGlobalVariable m (symbol_name info)) as [g|]; [|done].
    destruct (use_empty g); simpl in Hrun; [|by eauto].
    eapply IH; [done|]. by apply getGlobalVariable_erase_None.
Qed.

(** Where a global of the module that the pass leaves comes from, and which
    of its users it has lost. *)
Lemma RemoveUnusedAndUninitializedGlobals_kept
    (cs : list ConstantInfo) (m m' : LlvmModule) (name : string)
    (global' : GlobalVariable) :
  RemoveUnusedAndUninitializedGlobals m cs = Ok m' →
  globals m' !! name = Some global' →
  ∃ global, globals m !! name = Some global
    ∧ hasLocalLinkage global' = hasLocalLinkage global
    ∧ users global' `sublist_of` users global
    ∧ ∀ user, user ∈ users global → user ∉ users global' →
        ∃ erased, user = InitializerOf erased
                  ∧ is_Some (globals m !! erased)
                  ∧ globals m' !! erased = None.
Proof.
  revert m name global'.
  induction cs as [|info rest IH]; intros m name g' Hrun Hg'.
  - injection Hrun as <-. exists g'. split_and!; [done..|]. by intros u ? ?.
  - rewrite RemoveUnusedAndUninitializedGlobals_cons in Hrun.
    unfold prune_constant in Hrun.
    destruct (negb (span_empty (content info))); simpl in Hrun; [|by eauto].
    destruct (getGlobalVariable m (symbol_name info)) as [g0|] eqn:Hg0;
      [|done].
    destruct (use_empty g0); simpl in Hrun; [|by eauto].
    apply getGlobalVariable_Some in Hg0 as [Hg0 _].
    assert (Hgone : globals m' !! symbol_name info = None).
    { destruct (globals m' !! symbol_name info) as [g1|] eqn:Hg1; [|done].
      destruct (IH _ _ _ Hrun Hg1) as (g2 & Hg2 & _).
      rewrite globals_eraseFromParent, decide_True in Hg2; done. }
    destruct (IH _ _ _ Hrun Hg') as (g1 & Hg1 & Hlink & Hsub & Hlost).
    rewrite globals_eraseFromParent in Hg1. case_decide as Hname; [done|].
    destruct (globals m !! name) as [g|] eqn:Hg; [|done].
    injection Hg1 as <-. exists g. split_and!; [done|done| |].
    + etrans; [done|]. apply sublist_filter.
    + intros u Hu Hnot.
      destruct (decide (u = InitializerOf (symbol_name info))) as [->|Hne].
      { exists (symbol_name info). by rewrite Hg0. }
      destruct (Hlost u) as (erased & -> & Hwas & Hnow); [|done|].
      { apply users_drop_uses_of. done. }
      exists erased. split_and!; [done| |done].
      rewrite globals_eraseFromParent in Hwas. case_decide; [by destruct Hwas|].
      by apply fmap_is_Some in Hwas.
Qed.

(** What a global that the pass has erased was. *)
Lemma RemoveUnusedAndUninitializedGlobals_erased
    (cs : list ConstantInfo) (m m' : LlvmModule) (name : string)
    (global : GlobalVariable) :
  RemoveUnusedAndUninitializedGlobals m cs = Ok m' →
  globals m !! name = Some global →
  globals m' !! name = None →
  (∃ info, info ∈ cs ∧ content info ≠ [] ∧ symbol_name info = name)
  ∧ hasLocalLinkage global = false
  ∧ ∀ user, user ∈ users global →
      ∃ erased, user = InitializerOf erased
                ∧ is_Some (globals m !! erased)
                ∧ globals m' !! erased = None.
Proof.
  revert m name global.
  induction cs as [|info rest IH]; intros m name g Hrun Hg Hgone.
  - injection Hrun as <-. congruence.
  - assert (Hrest : RemoveUnusedAndUninitializedGlobals m rest = Ok m' →
      (∃ i, i ∈ info :: rest ∧ content i ≠ [] ∧ symbol_name i = name)
      ∧ hasLocalLinkage g = false
      ∧ ∀ user, user ∈ users g →
          ∃ erased, user = InitializerOf erased
                    ∧ is_Some (globals m !! erased)
                    ∧ globals m' !! erased = None).
    { intros Hrun'.
      destruct (IH _ _ _ Hrun' Hg Hgone) as ((i & Hin & Hi) & Hrem).
      split; [|done]. exists i. split; [by right|done]. }
    rewrite RemoveUnusedAndUninitializedGlobals_cons in Hrun.
    unfold prune_constant in Hrun.
    destruct (span_empty (content info)) eqn:Hc; simpl in Hrun; [by auto|].
    destruct (getGlobalVariable m (symbol_name info)) as [g0|] eqn:Hg0;
      [|done].
    destruct (use_empty g0) eqn:Hu0; simpl in Hrun; [|by auto].
    apply getGlobalVariable_Some in Hg0 as [Hg0 Hl0].
    assert (Hhead : globals m' !! symbol_name info = None).
    { destruct (globals m' !! symbol_name info) as [g1|] eqn:Hg1; [|done].
      destruct (RemoveUnusedAndUninitializedGlobals_kept _ _ _ _ _ Hrun Hg1)
        as (g2 & Hg2 & _).
      rewrite globals_eraseFromParent, decide_True in Hg2; done. }
    destruct (decide (name = symbol_name info)) as [->|Hname].
    + assert (g = g0) as -> by congruence. split_and!; [|done|].
      * exists info. split_and!; [by left|by apply span_empty_cons|done].
      * apply use_empty_nil in Hu0. rewrite Hu0. intros u Hu.
        by apply elem_of_nil in Hu.
    + destruct (IH (eraseFromParent (symbol_name info) m) name
                  (drop_uses_of (symbol_name info) g) Hrun)
        as ((i & Hin & Hi) & Hlink & Husers); [|done|].
      { rewrite globals_eraseFromParent, decide_False by done.
        by rewrite Hg. }
      split_and!; [|done|].
      * exists i. split; [by right|done].
      * intros u Hu.
        destruct (decide (u = InitializerOf (symbol_name info))) as [->|Hne].
        { exists (symbol_name info). by rewrite Hg0. }
        destruct (Husers u) as (erased & -> & Hwas & Hnow).
        { apply users_drop_uses_of. done. }
        exists erased. split_and!; [done| |done].
        rewrite globals_eraseFromParent in Hwas.
        case_decide; [by destruct Hwas|]. by apply fmap_is_Some in Hwas.
Qed.

(** A run that erases nothing returns the module it got. *)
Lemma RemoveUnusedAndUninitializedGlobals_nothing_erased
    (cs : list ConstantInfo) (m m' : LlvmModule) :
  RemoveUnusedAndUninitializedGlobals m cs = Ok m' →
  (∀ name, erased_by m cs name = false) →
  m' = m.
Proof.
  revert m. induction cs as [|info rest IH]; intros m Hrun Hnone.
  - by injection Hrun as <-.
  - assert (Hrest : ∀ name, erased_by m rest name = false).
    { intros name. specialize (Hnone name). rewrite erased_by_cons in Hnone.
      by apply orb_false_iff in Hnone as [_ ?]. }
    specialize (Hnone (symbol_name info)). rewrite erased_by_cons in Hnone.
    apply orb_false_iff in Hnone as [Hhead _].
    rewrite RemoveUnusedAndUninitializedGlobals_cons in Hrun.
    unfold prune_constant in Hrun.
    destruct (negb (span_empty (content info))); simpl in *; [|by auto].
    destruct (getGlobalVariable m (symbol_name info)) as [g|]; [|done].
    rewrite bool_decide_eq_true_2 in Hhead by done. simpl in Hhead.
    rewrite Hhead in Hrun. simpl in Hrun. by auto.
Qed.

(** A global that is erasable in the module given is not in the module that
    the pass leaves. *)
Lemma RemoveUnusedAndUninitializedGlobals_erases
    (cs : list ConstantInfo) (m m' : LlvmModule) (name : string) :
  RemoveUnusedAndUninitializedGlobals m cs = Ok m' →
  erased_by m cs name = true →
  getGlobalVariable m' name = None.
Proof.
  revert m. induction cs as [|info rest IH]; intros m Hrun He; [done|].
  rewrite erased_by_cons in He.
  rewrite RemoveUnusedAndUninitializedGlobals_cons in Hrun.
  unfold prune_constant in Hrun.
  destruct (negb (span_empty (content info))); simpl in *; [|by eauto].
  destruct (getGlobalVariable m (symbol_name info)) as [g|] eqn:Hg; [|done].
  case_bool_decide as Hname; simpl in He.
  - subst name. rewrite Hg in He.
    destruct (use_empty g); simpl in *; [|by eauto].
    eapply RemoveUnusedAndUninitializedGlobals_None; [done|].
    apply getGlobalVariable_erase_eq.
  - destruct (use_empty g); simpl in Hrun; [|by eauto].
    eapply IH; [done|].
    apply erased_by_true in He as (i & gi & Hin & Hne & Hi & Hgi & Hui).
    apply erased_by_true. exists i, (drop_uses_of (symbol_name info) gi).
    split_and!; [done..| |].
    + rewrite getGlobalVariable_erase_ne by done. by rewrite Hgi.
    + apply use_empty_nil, use_empty_drop_uses_of, use_empty_nil. done.
Qed.

(** A global without a use is, after the pass, gone or as it was. *)
Lemma RemoveUnusedAndUninitializedGlobals_unused
    (cs : list ConstantInfo) (m m' : LlvmModule) (name : string)
    (global : GlobalVariable) :
  RemoveUnusedAndUninitializedGlobals m cs = Ok m' →
  getGlobalVariable m name = Some global →
  users global = [] →
  getGlobalVariable m' name = None ∨ getGlobalVariable m' name = Some global.
Proof.
  revert m. induction cs as [|info rest IH]; intros m Hrun Hg Hu.
  - injection Hrun as <-. by right.
  - rewrite RemoveUnusedAndUninitializedGlobals_cons in Hrun.
    unfold prune_constant in Hrun.
    destruct (negb (span_empty (content info))); simpl in Hrun; [|by eauto].
    destruct (getGlobalVariable m (symbol_name info)) as [g0|]; [|done].
    destruct (use_empty g0); simpl in Hrun; [|by eauto].
    destruct (decide (symbol_name info = name)) as [<-|Hname].
    + left. eapply RemoveUnusedAndUninitializedGlobals_None; [done|].
      apply getGlobalVariable_erase_eq.
    + eapply IH; [done| |done].
      rewrite getGlobalVariable_erase_ne, Hg by done. simpl. f_equal.
      apply drop_uses_of_id. rewrite Hu. apply not_elem_of_nil.
Qed.

(** X1.  Pruning for a list of constants that is two lists one after the
    other is pruning for the first, then for the second on the module the
    first run leaves; an abort in the first run is an abort of the whole. *)
Theorem RemoveUnusedAndUninitializedGlobals_app
    (cs1 cs2 : list ConstantInfo) (m : LlvmModule) :
  RemoveUnusedAndUninitializedGlobals m (cs1 ++ cs2)
  = match RemoveUnusedAndUninitializedGlobals m cs1 with
    | Ok m1 => RemoveUnusedAndUninitializedGlobals m1 cs2
    | Error st => Error st
    | CheckFailure => CheckFailure
    end.
Proof. apply RemoveUnusedAndUninitializedGlobals_app_eq. Qed.

(** X2.  A run that returns adds no global: the triple and the data layout
    are the ones it got, and every global of the module it leaves was in the
    module it got, with the same linkage and with its users in their order,
    less only initializers of globals that the run has erased. *)
Theorem RemoveUnusedAndUninitializedGlobals_only_erases
    (cs : list ConstantInfo) (m m' : LlvmModule) :
  RemoveUnusedAndUninitializedGlobals m cs = Ok m' →
  target_triple m' = target_triple m
  ∧ data_layout m' = data_layout m
  ∧ ∀ name global', globals m' !! name = Some global' →
      ∃ global, globals m !! name = Some global
        ∧ hasLocalLinkage global' = hasLocalLinkage global
        ∧ users global' `sublist_of` users global
        ∧ ∀ user, user ∈ users global → user ∉ users global' →
            ∃ erased, user = InitializerOf erased
                      ∧ is_Some (globals m !! erased)
                      ∧ globals m' !! erased = None.
Proof.
  intros Hrun.
  destruct (RemoveUnusedAndUninitializedGlobals_frame cs m m' Hrun)
    as [Htriple Hlayout].
  split_and!; [done..|]. intros name g'.
  by apply (RemoveUnusedAndUninitializedGlobals_kept cs).
Qed.

Lemma RemoveUnusedAndUninitializedGlobals_only_erases_witness :
  target_triple linked_module_pruned = target_triple linked_module
  ∧ data_layout linked_module_pruned = data_layout linked_module
  ∧ ∀ name global', globals linked_module_pruned !! name = Some global' →
      ∃ global, globals linked_module !! name = Some global
        ∧ hasLocalLinkage global' = hasLocalLinkage global
        ∧ users global' `sublist_of` users global
        ∧ ∀ user, user ∈ users global → user ∉ users global' →
            ∃ erased, user = InitializerOf erased
                      ∧ is_Some (globals linked_module !! erased)
                      ∧ globals linked_module_pruned !! erased = None.
Proof.
  apply (RemoveUnusedAndUninitializedGlobals_only_erases
           [constant_1; constant_2; constant_4] linked_module
           linked_module_pruned).
  reflexivity.
Defined.

(** X3.  When every constant of the list has empty content the pass returns
    the module it got, whatever globals that module has or lacks: no global
    is looked up and no [CHECK] can fail. *)
Theorem RemoveUnusedAndUninitializedGlobals_all_empty
    (cs : list ConstantInfo) (m : LlvmModule) :
  Forall (λ info, content info = []) cs →
  RemoveUnusedAndUninitializedGlobals m cs = Ok m.
Proof.
  induction 1 as [|info rest Hempty _ IH]; [done|].
  simpl. by rewrite Hempty.
Qed.

Lemma RemoveUnusedAndUninitializedGlobals_all_empty_witness :
  RemoveUnusedAndUninitializedGlobals (MkModule "" "" ∅)
    [constant_2; constant_2] = Ok (MkModule "" "" ∅).
Proof.
  apply (RemoveUnusedAndUninitializedGlobals_all_empty
           [constant_2; constant_2] (MkModule "" "" ∅)).
  repeat constructor.
Defined.

(** X4.  The pass cannot be run twice.  If the first run erased nothing, it
    returned the module it got and a second run returns it again; if the
    first run erased a global, a second run with the same constants on the
    module it left fails the [CHECK] for the global that is gone. *)
Theorem RemoveUnusedAndUninitializedGlobals_twice
    (cs : list ConstantInfo) (m m' : LlvmModule) :
  RemoveUnusedAndUninitializedGlobals m cs = Ok m' →
  ((∀ name, erased_by m cs name = false) →
   m' = m ∧ RemoveUnusedAndUninitializedGlobals m' cs = Ok m')
  ∧ ((∃ name, erased_by m cs name = true) →
     RemoveUnusedAndUninitializedGlobals m' cs = CheckFailure).
Proof.
  intros Hrun. split.
  - intros Hnone. assert (m' = m) as ->; [|done].
    by eapply RemoveUnusedAndUninitializedGlobals_nothing_erased.
  - intros [name Herased].
    pose proof Herased as (info & g & Hin & Hne & Hname & _)%erased_by_true.
    apply (missing_global_check_fails cs m' info); [done..|].
    rewrite Hname. by eapply RemoveUnusedAndUninitializedGlobals_erases.
Qed.

Lemma RemoveUnusedAndUninitializedGlobals_twice_witness :
  ((∀ name, erased_by emitted_module [constant_1; constant_2] name = false) →
   MkModule (target_triple emitted_module) (data_layout emitted_module)
     {["buffer_for_constant_2" := unused_global]} = emitted_module
   ∧ RemoveUnusedAndUninitializedGlobals
       (MkModule (target_triple emitted_module) (data_layout emitted_module)
          {["buffer_for_constant_2" := unused_global]})
       [constant_1; constant_2]
     = Ok (MkModule (target_triple emitted_module)
             (data_layout emitted_module)
             {["buffer_for_constant_2" := unused_global]}))
  ∧ ((∃ name, erased_by emitted_module [constant_1; constant_2] name = true) →
     RemoveUnusedAndUninitializedGlobals
       (MkModule (target_triple emitted_module) (data_layout emitted_module)
          {["buffer_for_constant_2" := unused_global]})
       [constant_1; constant_2]
     = CheckFailure).
Proof.
  apply (RemoveUnusedAndUninitializedGlobals_twice [constant_1; constant_2]
           emitted_module).
  reflexivity.
Defined.

Lemma RemoveUnusedAndUninitializedGlobals_not_status
    (cs : list ConstantInfo) (m : LlvmModule) (st : Status) :
  RemoveUnusedAndUninitializedGlobals m cs ≠ Error st.
Proof.
  intros Hrun.
  pose proof (RemoveUnusedAndUninitializedGlobals_no_status cs m) as Hno.
  by rewrite Hrun in Hno.
Qed.

(** X5.  A list in which two constants with non-empty content name the same
    global aborts on every module in which that global has no use: the first
    of the two erases it (if it is there at all) and the second fails the
    [CHECK]. *)
Theorem RemoveUnusedAndUninitializedGlobals_duplicate_aborts
    (m : LlvmModule) (before between after : list ConstantInfo)
    (first second : ConstantInfo) (global : GlobalVariable) :
  symbol_name first = symbol_name second →
  content first ≠ [] →
  content second ≠ [] →
  getGlobalVariable m (symbol_name first) = Some global →
  users global = [] →
  RemoveUnusedAndUninitializedGlobals m
    (before ++ first :: between ++ second :: after) = CheckFailure.
Proof.
  intros Hname Hfirst Hsecond Hglobal Hunused.
  assert (Hin : second ∈ between ++ second :: after).
  { apply elem_of_app; right. apply elem_of_cons; by left. }
  rewrite RemoveUnusedAndUninitializedGlobals_app_eq.
  destruct (RemoveUnusedAndUninitializedGlobals m before) as [m1|st|] eqn:Hrun;
    cbn [mbind Outcome_bind];
    [|by apply RemoveUnusedAndUninitializedGlobals_not_status in Hrun|done].
  rewrite RemoveUnusedAndUninitializedGlobals_cons. unfold prune_constant.
  apply span_empty_cons in Hfirst. rewrite Hfirst. simpl.
  destruct (RemoveUnusedAndUninitializedGlobals_unused before m m1 _ _
              Hrun Hglobal Hunused) as [->| ->]; [done|].
  apply use_empty_nil in Hunused. rewrite Hunused. simpl.
  apply (missing_global_check_fails _ _ second); [done..|].
  rewrite <- Hname. apply getGlobalVariable_erase_eq.
Qed.

Lemma RemoveUnusedAndUninitializedGlobals_duplicate_aborts_witness :
  RemoveUnusedAndUninitializedGlobals emitted_module
    ([constant_2] ++ constant_1 :: [] ++ constant_1 :: []) = CheckFailure.
Proof.
  apply (RemoveUnusedAndUninitializedGlobals_duplicate_aborts emitted_module
           [constant_2] [] [] constant_1 constant_1 unused_global);
    (reflexivity || discriminate).
Defined.

Lemma erased_by_Permutation (m : LlvmModule) (cs cs' : list ConstantInfo)
    (name : string) :
  cs ≡ₚ cs' → erased_by m cs name = erased_by m cs' name.
Proof.
  intros Hperm. apply eq_true_iff_eq. rewrite !erased_by_true.
  by setoid_rewrite Hperm.
Qed.

(** X6.  For constants with pairwise distinct symbol names, none of whose
    globals is used by the initializer of another's, the outcome of the pass
    does not depend on the order of the constants: on two lists that are
    permutations of each other both runs abort or both return the same
    module. *)
Theorem RemoveUnusedAndUninitializedGlobals_order_irrelevant
    (cs cs' : list ConstantInfo) (m : LlvmModule) :
  cs ≡ₚ cs' →
  NoDup (symbol_name <$> cs) →
  independent_globals m cs = true →
  RemoveUnusedAndUninitializedGlobals m cs
  = RemoveUnusedAndUninitializedGlobals m cs'.
Proof.
  intros Hperm Hnd Hind.
  pose proof (proj1 (independent_globals_spec m cs) Hind) as Hsep.
  assert (dec : ∀ info,
    {content info ≠ [] → is_Some (getGlobalVariable m (symbol_name info))}
    + {content info ≠ [] ∧ getGlobalVariable m (symbol_name info) = None}).
  { intros info.
    destruct (getGlobalVariable m (symbol_name info)) eqn:Hg; [by left; eauto|].
    destruct (content info); [by left|by right]. }
  destruct (Forall_Exists_dec _ _ dec cs) as [Hall|Hex].
  - rewrite Forall_forall in Hall.
    destruct (RemoveUnusedAndUninitializedGlobals_independent cs m)
      as (m1 & Hrun1 & Hlk1); [done..|].
    destruct (RemoveUnusedAndUninitializedGlobals_independent cs' m)
      as (m2 & Hrun2 & Hlk2).
    { by rewrite <- Hperm. }
    { intros info Hin. apply Hall. by rewrite Hperm. }
    { intros i i' g Hi Hi'. apply Hsep; by rewrite Hperm. }
    rewrite Hrun1, Hrun2. f_equal.
    destruct (RemoveUnusedAndUninitializedGlobals_frame _ _ _ Hrun1)
      as [Ht1 Hl1].
    destruct (RemoveUnusedAndUninitializedGlobals_frame _ _ _ Hrun2)
      as [Ht2 Hl2].
    apply LlvmModule_eq; [congruence..|]. intros name.
    rewrite Hlk1, Hlk2, (erased_by_Permutation m cs cs' name Hperm).
    destruct (erased_by m cs' name); [done|].
    destruct (globals m !! name); simpl; [|done]. f_equal.
    apply drop_uses_where_ext. intros k. by apply erased_by_Permutation.
  - apply Exists_exists in Hex as (info & Hin & Hne & Hnone).
    rewrite (missing_global_check_fails cs m info) by done.
    rewrite (missing_global_check_fails cs' m info); [done| |done..].
    by rewrite <- Hperm.
Qed.

Lemma RemoveUnusedAndUninitializedGlobals_order_irrelevant_witness :
  RemoveUnusedAndUninitializedGlobals linked_module
    [constant_4; constant_1; constant_2]
  = RemoveUnusedAndUninitializedGlobals linked_module
      ([constant_1; constant_2] ++ [constant_4]).
Proof.
  apply (RemoveUnusedAndUninitializedGlobals_order_irrelevant
           [constant_4; constant_1; constant_2]
           ([constant_1; constant_2] ++ [constant_4]) linked_module).
  - apply Permutation_cons_append.
  - apply (bool_decide_unpack _). reflexivity.
  - reflexivity.
Defined.

(** ** The traversal as a map and a fold *)

Section ForAllThunks_more.
Context {Op St : Type} (fn : Thunk Op → St → Thunk Op * St).

Lemma ForAllThunks_app_eq (ts1 ts2 : list (Thunk Op)) (s : St) :
  ForAllThunks fn (ts1 ++ ts2) s
  = let '(ts1', s1) := ForAllThunks fn ts1 s in
    let '(ts2', s2) := ForAllThunks fn ts2 s1 in
    (ts1' ++ ts2', s2).
Proof.
  revert s. induction ts1 as [|t rest IH]; intros s.
  - cbn [app ForAllThunks]. by destruct (ForAllThunks fn ts2 s).
  - rewrite <- app_comm_cons, !ForAllThunks_cons.
    destruct (ForAllThunks_body fn t s) as [t' s1]. rewrite IH.
    destruct (ForAllThunks fn rest s1) as [rest' s2].
    by destruct (ForAllThunks fn ts2 s2).
Qed.

(** A thunk without a leaf below it is left alone, and so is the state. *)
Lemma ForAllThunks_body_no_leaf (thunk : Thunk Op) :
  num_leaves_of thunk = 0%nat →
  ∀ s, ForAllThunks_body fn thunk s = (thunk, s).
Proof.
  assert (Hseq : ∀ ts : list (Thunk Op),
    Forall (λ t, num_leaves_of t = 0%nat →
                 ∀ s, ForAllThunks_body fn t s = (t, s)) ts →
    sum_list (map num_leaves_of ts) = 0%nat →
    ∀ s, ForAllThunks fn ts s = (ts, s)).
  { induction 1 as [|t rest Ht _ IH]; intros Hsum s; [done|].
    cbn [map sum_list_with id] in Hsum. rewrite ForAllThunks_cons.
    rewrite Ht by lia. by rewrite IH by lia. }
  induction thunk as [op|ts IH|bs IH|c b IHc IHb] using Thunk_ind;
    cbn [num_leaves_of]; intros Hnone s.
  - done.
  - by rewrite ForAllThunks_body_sequential, (Hseq ts IH Hnone).
  - rewrite ForAllThunks_body_conditional.
    assert (Hbranches : ∀ s, ForAllThunks_branches fn bs s = (bs, s));
      [|by rewrite Hbranches].
    clear s. induction IH as [|br rest Hbr _ IHrest]; intros s; [done|].
    cbn [map sum_list_with id] in Hnone. rewrite ForAllThunks_branches_cons.
    rewrite (Hseq br Hbr) by lia. by rewrite IHrest by lia.
  - rewrite ForAllThunks_body_while.
    by rewrite (Hseq c IHc), (Hseq b IHb) by lia.
Qed.
End ForAllThunks_more.

(** X7.  The traversal of two sequences one after the other is the traversal
    of the first, then the traversal of the second from the state the first
    leaves, the two results put one after the other. *)
Theorem ForAllThunks_app {Op St : Type} (fn : Thunk Op → St → Thunk Op * St)
    (ts1 ts2 : list (Thunk Op)) (s : St) :
  ForAllThunks fn (ts1 ++ ts2) s
  = ((ForAllThunks fn ts1 s).1
       ++ (ForAllThunks fn ts2 (ForAllThunks fn ts1 s).2).1,
     (ForAllThunks fn ts2 (ForAllThunks fn ts1 s).2).2).
Proof.
  rewrite ForAllThunks_app_eq.
  destruct (ForAllThunks fn ts1 s) as [ts1' s1]. cbn [fst snd].
  by destruct (ForAllThunks fn ts2 s1).
Qed.

(** X8.  With an action that writes each thunk by a function [f] of the
    thunk and the state by a function [g], the traversal returns the tree
    with [f] applied to every leaf and every composite node in its place,
    and the state folded with [g] over the leaves in tree order.  With the
    identity for [f] the tree is returned as it was. *)
Theorem ForAllThunks_map_fold {Op St : Type}
    (f : Thunk Op → Thunk Op) (g : Thunk Op → St → St)
    (thunk_sequence : list (Thunk Op)) (s : St) :
  ForAllThunks (λ t s, (f t, g t s)) thunk_sequence s
    = (map_leaves f thunk_sequence,
       foldl (λ s t, g t s) s (leaves thunk_sequence))
  ∧ map_leaves id thunk_sequence = thunk_sequence.
Proof. split; [apply ForAllThunks_map_fold_eq|apply map_leaves_id]. Qed.

(** X9.  On a sequence without a leaf, however its sequences, conditionals
    and loops are nested, the action is not invoked: the tree and the state
    come back as they were. *)
Theorem ForAllThunks_no_leaf {Op St : Type}
    (fn : Thunk Op → St → Thunk Op * St)
    (thunk_sequence : list (Thunk Op)) (s : St) :
  num_leaves thunk_sequence = 0%nat →
  ForAllThunks fn thunk_sequence s = (thunk_sequence, s).
Proof.
  unfold num_leaves. revert s.
  induction thunk_sequence as [|t rest IH]; intros s Hnone; [done|].
  cbn [map sum_list_with id] in Hnone.
  rewrite ForAllThunks_cons, ForAllThunks_body_no_leaf by lia.
  by rewrite IH by lia.
Qed.

Lemma ForAllThunks_no_leaf_witness :
  ForAllThunks count_call leafless_thunks 7%nat = (leafless_thunks, 7%nat).
Proof.
  apply (ForAllThunks_no_leaf count_call leafless_thunks 7%nat).
  reflexivity.
Defined.

(** X10.  Composite nodes are transparent to the action: the state after the
    traversal of a sequential thunk is the state after the traversal of its
    thunks, and the state after the traversal of a conditional is the state
    after the traversal of its branches laid end to end. *)
Theorem ForAllThunks_composites_transparent {Op St : Type}
    (fn : Thunk Op → St → Thunk Op * St)
    (ts : list (Thunk Op)) (bs : list (list (Thunk Op))) (s : St) :
  (ForAllThunks fn [SequentialThunk ts] s).2 = (ForAllThunks fn ts s).2
  ∧ (ForAllThunks fn [ConditionalThunk bs] s).2
    = (ForAllThunks fn (concat bs) s).2.
Proof.
  rewrite !ForAllThunks_state. split; f_equal.
  - unfold leaves. cbn [map concat leaves_of]. apply app_nil_r.
  - unfold leaves. cbn [map concat leaves_of]. rewrite app_nil_r.
    induction bs as [|b rest IH]; [done|].
    cbn [map concat]. by rewrite map_app, concat_app, IH.
Qed.

(** ** The signature verifier, loop by loop *)

Section GetMlirAllocationInfo_more.
Context {ElementType BufferAllocation Allocated : Type}.
Context (GetElementTypeBytes : ElementType → Z + Status).
Context (ret_check_failure : string → Status).

Lemma buffer_size_to_int64 (num_elements element_type_bytes : Z) :
  buffer_size num_elements element_type_bytes
  = to_int64 (num_elements * element_type_bytes).
Proof.
  unfold buffer_size, to_size_t, to_int64.
  rewrite Zplus_mod_idemp_l.
  replace ((num_elements * element_type_bytes + 2 ^ 63) mod 2 ^ 64
           - 2 ^ 63 + 2 ^ 63)%Z
    with ((num_elements * element_type_bytes + 2 ^ 63) mod 2 ^ 64)%Z by lia.
  by rewrite Z.mod_mod.
Qed.

(** A product that an [int64_t] holds is the size; one that it does not hold
    wraps around. *)
Lemma buffer_size_in_range (num_elements element_type_bytes : Z) :
  (- 2 ^ 63 ≤ num_elements * element_type_bytes < 2 ^ 63)%Z →
  buffer_size num_elements element_type_bytes
  = (num_elements * element_type_bytes)%Z.
Proof.
  intros Hrange. rewrite buffer_size_to_int64. unfold to_int64.
  rewrite Z.mod_small; lia.
Qed.

Example buffer_size_wraps : buffer_size (2 ^ 62) 4 = 0%Z.
Proof. reflexivity. Qed.

Lemma buffer_sizes_of_sized (args : list (BlockArgument ElementType))
    (sizes : list Z) :
  buffer_sizes_of GetElementTypeBytes ret_check_failure args = Ok sizes ↔
  Forall2 (sized GetElementTypeBytes) args sizes.
Proof.
  revert sizes. induction args as [|arg rest IH]; intros sizes; simpl.
  - split; [intros [= <-]; constructor|by intros ->%Forall2_nil_inv_l].
  - split.
    + destruct (getType arg) as [et n|] eqn:Htype; [|done].
      destruct (GetElementTypeBytes et) as [b|st] eqn:Hbytes; [|done].
      simpl.
      destruct (buffer_sizes_of _ _ rest) as [tail| |] eqn:Hrest; [|done..].
      simpl. intros [= <-]. constructor; [|by apply IH].
      exists et, n, b. by rewrite buffer_size_to_int64.
    + intros (size & tail & (et & n & b & -> & -> & ->) & Htail & ->)
        %Forall2_cons_inv_l.
      simpl. apply IH in Htail. by rewrite Htail, buffer_size_to_int64.
Qed.

Lemma verify_attrs_known (attrs : list NamedAttribute) :
  verify_attrs ret_check_failure attrs = Ok tt ↔
  Forall (λ attr, known_arg_attr (getName attr) = true) attrs.
Proof.
  induction attrs as [|attr rest IH]; simpl.
  - split; [constructor|done].
  - rewrite Forall_cons, <- IH.
    destruct (known_arg_attr (getName attr)); simpl; [tauto|].
    split; [done|]. by intros [? _].
Qed.

Lemma verify_arg_attrs_known (args : list (BlockArgument ElementType)) :
  verify_arg_attrs ret_check_failure args = Ok tt ↔
  Forall all_attrs_known args.
Proof.
  induction args as [|arg rest IH]; simpl.
  - split; [constructor|done].
  - rewrite Forall_cons, <- IH. unfold all_attrs_known.
    rewrite <- verify_attrs_known.
    destruct (verify_attrs_cases ret_check_failure (getArgAttrs arg))
      as [-> | ->]; simpl; [tauto|].
    split; [done|]. by intros [? _].
Qed.

Lemma verify_arg_attrs_unit (args : list (BlockArgument ElementType))
    (u : unit) :
  verify_arg_attrs ret_check_failure args = Ok u →
  verify_arg_attrs ret_check_failure args = Ok tt.
Proof. by destruct u. Qed.

(** The first loop stops at the first argument it cannot size. *)
Lemma buffer_sizes_of_first_failure
    (good rest : list (BlockArgument ElementType))
    (bad : BlockArgument ElementType) (sizes : list Z) :
  Forall2 (sized GetElementTypeBytes) good sizes →
  buffer_sizes_of GetElementTypeBytes ret_check_failure (good ++ bad :: rest)
  = match getType bad with
    | UnshapedType =>
        Error (ret_check_failure "arg.getType().isa<mlir::ShapedType>()")
    | ShapedType element_type num_elements =>
        match GetElementTypeBytes element_type with
        | inr st => Error st
        | inl element_type_bytes =>
            tail ← buffer_sizes_of GetElementTypeBytes ret_check_failure rest;
            Ok (sizes ++ buffer_size num_elements element_type_bytes :: tail)
        end
    end.
Proof.
  induction 1 as [|arg size good sizes (et & n & b & Htype & Hbytes & ->) _ IH].
  - simpl. destruct (getType bad) as [et n|]; [|done].
    by destruct (GetElementTypeBytes et).
  - simpl. rewrite Htype, Hbytes. simpl. rewrite IH, buffer_size_to_int64.
    destruct (getType bad) as [et' n'|]; [|done].
    destruct (GetElementTypeBytes et'); [|done]. simpl.
    by destruct (buffer_sizes_of _ _ rest).
Qed.
End GetMlirAllocationInfo_more.

(** X11.  On a signature all of whose arguments have a shaped type with a
    sized element type and only attributes of the five names, and with an
    empty vector of allocations, the verifier is [SetUpMlirAllocation] on the
    function and the buffer sizes: one size per argument, in the order of the
    arguments, each the number of elements times the byte size of the
    element type as an [int64_t] holds it, so wrapped around when the
    product is out of its range. *)
Theorem GetMlirAllocationInfo_well_formed
    {ElementType BufferAllocation Allocated : Type}
    (GetElementTypeBytes : ElementType → Z + Status)
    (ret_check_failure : string → Status)
    (SetUpMlirAllocation : FuncOp ElementType → list Z → Outcome Allocated)
    (func : FuncOp ElementType) (buffer_sizes : list Z) :
  Forall2 (sized GetElementTypeBytes) (getArguments func) buffer_sizes →
  Forall all_attrs_known (getArguments func) →
  GetMlirAllocationInfo GetElementTypeBytes ret_check_failure
    SetUpMlirAllocation func ([] : list BufferAllocation)
  = SetUpMlirAllocation func buffer_sizes
  ∧ length buffer_sizes = length (getArguments func).
Proof.
  intros Hsized Hknown. split; [|symmetry; by eapply Forall2_length].
  unfold GetMlirAllocationInfo.
  apply (buffer_sizes_of_sized _ ret_check_failure) in Hsized.
  apply (verify_arg_attrs_known ret_check_failure) in Hknown.
  by rewrite Hsized, Hknown.
Qed.

Lemma GetMlirAllocationInfo_well_formed_witness :
  GetMlirAllocationInfo element_type_bytes_of internal_error
    set_up_allocation verifiable_func ([] : list nat)
  = set_up_allocation verifiable_func [16%Z; 64%Z]
  ∧ length [16%Z; 64%Z] = length (getArguments verifiable_func).
Proof.
  apply (GetMlirAllocationInfo_well_formed element_type_bytes_of
           internal_error set_up_allocation verifiable_func [16%Z; 64%Z]).
  - repeat constructor; by eexists "f32", _, 4%Z.
  - repeat constructor.
Defined.

(** X12.  An OK result certifies the signature: if the verifier returns a
    value, then the vector of allocations was empty, every argument has a
    shaped type with a sized element type, every attribute of every argument
    has one of the five names, and the value is the one
    [SetUpMlirAllocation] returned for the sizes of the arguments, each the
    product of the number of elements and the byte size as an [int64_t]
    holds it. *)
Theorem GetMlirAllocationInfo_ok_certifies
    {ElementType BufferAllocation Allocated : Type}
    (GetElementTypeBytes : ElementType → Z + Status)
    (ret_check_failure : string → Status)
    (SetUpMlirAllocation : FuncOp ElementType → list Z → Outcome Allocated)
    (func : FuncOp ElementType) (allocations : list BufferAllocation)
    (allocated : Allocated) :
  GetMlirAllocationInfo GetElementTypeBytes ret_check_failure
    SetUpMlirAllocation func allocations = Ok allocated →
  allocations = []
  ∧ Forall all_attrs_known (getArguments func)
  ∧ ∃ buffer_sizes,
      Forall2 (sized GetElementTypeBytes) (getArguments func) buffer_sizes
      ∧ SetUpMlirAllocation func buffer_sizes = Ok allocated.
Proof.
  unfold GetMlirAllocationInfo. destruct allocations; [|done].
  destruct (buffer_sizes_of _ _ (getArguments func)) as [sizes| |] eqn:Hsizes;
    [|done..].
  simpl.
  destruct (verify_arg_attrs _ (getArguments func)) as [u| |] eqn:Hattrs;
    [|done..].
  simpl. intros Hset. split_and!; [done| |].
  - eapply verify_arg_attrs_known, verify_arg_attrs_unit, Hattrs.
  - exists sizes. split; [|done]. by eapply buffer_sizes_of_sized.
Qed.

Lemma GetMlirAllocationInfo_ok_certifies_witness :
  ([] : list nat) = []
  ∧ Forall all_attrs_known (getArguments verifiable_func)
  ∧ ∃ buffer_sizes,
      Forall2 (sized element_type_bytes_of) (getArguments verifiable_func)
        buffer_sizes
      ∧ set_up_allocation verifiable_func buffer_sizes = Ok [16%Z; 64%Z].
Proof.
  apply (GetMlirAllocationInfo_ok_certifies element_type_bytes_of
           internal_error set_up_allocation verifiable_func ([] : list nat)
           [16%Z; 64%Z]).
  reflexivity.
Defined.

(** X13.  The sizes are computed for all arguments before any attribute is
    looked at.  If the arguments before some argument are all sized and that
    argument is not of a shaped type, the verifier returns the status of the
    [TF_RET_CHECK] on the type; if it is shaped and its element type has no
    byte size, the verifier returns the status of [GetElementTypeBytes]
    unchanged; in both cases whatever the attributes of any argument and
    whatever the arguments after it. *)
Theorem GetMlirAllocationInfo_sizes_first
    {ElementType BufferAllocation Allocated : Type}
    (GetElementTypeBytes : ElementType → Z + Status)
    (ret_check_failure : string → Status)
    (SetUpMlirAllocation : FuncOp ElementType → list Z → Outcome Allocated)
    (good rest : list (BlockArgument ElementType))
    (bad : BlockArgument ElementType) (sizes : list Z) :
  Forall2 (sized GetElementTypeBytes) good sizes →
  (getType bad = UnshapedType →
   GetMlirAllocationInfo GetElementTypeBytes ret_check_failure
     SetUpMlirAllocation (MkFunc (good ++ bad :: rest))
     ([] : list BufferAllocation)
   = Error (ret_check_failure "arg.getType().isa<mlir::ShapedType>()"))
  ∧ (∀ element_type num_elements st,
       getType bad = ShapedType element_type num_elements →
       GetElementTypeBytes element_type = inr st →
       GetMlirAllocationInfo GetElementTypeBytes ret_check_failure
         SetUpMlirAllocation (MkFunc (good ++ bad :: rest))
         ([] : list BufferAllocation)
       = Error st).
Proof.
  intros Hgood. unfold GetMlirAllocationInfo. cbn [getArguments].
  rewrite (buffer_sizes_of_first_failure _ _ good rest bad sizes Hgood).
  split.
  - by intros ->.
  - intros et n st -> Hbytes. by rewrite Hbytes.
Qed.

Lemma GetMlirAllocationInfo_sizes_first_witness :
  (getType (MkArg (UnshapedType : MlirType string) []) = UnshapedType →
   GetMlirAllocationInfo element_type_bytes_of internal_error
     set_up_allocation unshaped_func ([] : list nat)
   = Error (internal_error "arg.getType().isa<mlir::ShapedType>()"))
  ∧ (∀ element_type num_elements st,
       getType (MkArg (UnshapedType : MlirType string) [])
       = ShapedType element_type num_elements →
       element_type_bytes_of element_type = inr st →
       GetMlirAllocationInfo element_type_bytes_of internal_error
         set_up_allocation unshaped_func ([] : list nat)
       = Error st).
Proof.
  apply (GetMlirAllocationInfo_sizes_first element_type_bytes_of
           internal_error set_up_allocation
           [MkArg (ShapedType "f32" 4%Z) [MkAttr "lmhlo.params" "0"]]
           [MkArg (ShapedType "f64" 1%Z) [MkAttr "lmhlo.written" "unit"]]
           (MkArg UnshapedType []) [16%Z]).
  repeat constructor. by eexists "f32", _, 4%Z.
Defined.

(** ** The compilation, stage by stage *)

Section CompileModuleToLlvmIr_more.
Context {Shape HloComputation BufferAssignment OutputInfo Op PlatformId : Type}.
Context `{EqDecision PlatformId}.
Context (kXlaAllocatedBufferAlignBytes : Z) (kROCmPlatformId : PlatformId).
Context (BufferAssigner_Run :
  HloModule Shape HloComputation → (Color → Z) → bool → Colorer
  → Outcome BufferAssignment).
Context (GetOutputInfo :
  HloModule Shape HloComputation → BufferAssignment → Outcome OutputInfo).
Context (EmitHloComputation :
  IrEmitterContext Shape HloComputation BufferAssignment → HloComputation
  → Outcome (IrEmitterContext Shape HloComputation BufferAssignment
             * list (Thunk Op))).
Context (ClearCompileTimeInfo : Thunk Op → Thunk Op).
Context (module : HloModule Shape HloComputation).
Context (target_triple data_layout platform_name : string).
Context (platform_id : PlatformId).
Context (parses_data_layout : string → bool).

(** The compilation as the sequence of its stages. *)
Lemma CompileModuleToLlvmIr_stages :
  CompileModuleToLlvmIr kXlaAllocatedBufferAlignBytes kROCmPlatformId
    BufferAssigner_Run GetOutputInfo EmitHloComputation ClearCompileTimeInfo
    module target_triple data_layout platform_name platform_id
  = assignment ←
      BufferAssigner_Run module
        (color_alignment kXlaAllocatedBufferAlignBytes) true
        (chosen_colorer module);
    output_info ← GetOutputInfo module assignment;
    '(context, thunk_sequence) ←
      EmitHloComputation
        (initial_context module assignment target_triple data_layout
           platform_name)
        (entry_computation module);
    pruned_module ←
      prune_if_supported kROCmPlatformId platform_id module context;
    Ok {| results_llvm_module := pruned_module;
          results_buffer_assignment := assignment;
          results_executable :=
            map_leaves ClearCompileTimeInfo thunk_sequence;
          results_constants := constants context;
          results_output_info := output_info;
          results_output_shape := result_shape module;
          results_module_name := name module;
          results_use_original_allocations := true |}.
Proof.
  unfold CompileModuleToLlvmIr, chosen_colorer, initial_context,
    prune_if_supported.
  destruct (BufferAssigner_Run _ _ _ _) as [a| |]; [|done..]. simpl.
  destruct (GetOutputInfo module a) as [oi| |]; [|done..]. simpl.
  destruct (EmitHloComputation _ _) as [[ctx thunks]| |]; [|done..]. simpl.
  destruct (supports_runtime_managed_constants _ _ _);
    [destruct (RemoveUnusedAndUninitializedGlobals _ _)|]; simpl;
    try done; unfold clear_compile_time_info;
    by rewrite (ForAllThunks_map_fold_eq ClearCompileTimeInfo (λ _ s, s)).
Qed.

Lemma prune_if_supported_not_status
    (context : IrEmitterContext Shape HloComputation BufferAssignment)
    (st : Status) :
  prune_if_supported kROCmPlatformId platform_id module context ≠ Error st.
Proof.
  unfold prune_if_supported.
  destruct (supports_runtime_managed_constants _ _ _); [|done].
  apply RemoveUnusedAndUninitializedGlobals_not_status.
Qed.

Local Ltac stage_cases :=
  repeat match goal with
         | H : _ ∨ _ |- _ => destruct H
         | H : ∃ _, _ |- _ => destruct H
         | H : _ ∧ _ |- _ => destruct H
         end;
  simplify_eq; try done; try congruence.

(** Where a failure of the compilation comes from, once the module is set
    up. *)
Lemma CompileModuleToLlvmIr_failure_stages (st : Status) :
  (CompileModuleToLlvmIr kXlaAllocatedBufferAlignBytes kROCmPlatformId
     BufferAssigner_Run GetOutputInfo EmitHloComputation ClearCompileTimeInfo
     module target_triple data_layout platform_name platform_id = Error st
   ↔ BufferAssigner_Run module
       (color_alignment kXlaAllocatedBufferAlignBytes) true
       (chosen_colorer module) = Error st
     ∨ (∃ assignment,
          BufferAssigner_Run module
            (color_alignment kXlaAllocatedBufferAlignBytes) true
            (chosen_colorer module) = Ok assignment
          ∧ (GetOutputInfo module assignment = Error st
             ∨ ∃ output_info,
                 GetOutputInfo module assignment = Ok output_info
                 ∧ EmitHloComputation
                     (initial_context module assignment target_triple
                        data_layout platform_name)
                     (entry_computation module) = Error st)))
  ∧ (CompileModuleToLlvmIr kXlaAllocatedBufferAlignBytes kROCmPlatformId
       BufferAssigner_Run GetOutputInfo EmitHloComputation
       ClearCompileTimeInfo module target_triple data_layout platform_name
       platform_id = CheckFailure
     ↔ BufferAssigner_Run module
         (color_alignment kXlaAllocatedBufferAlignBytes) true
         (chosen_colorer module) = CheckFailure
       ∨ (∃ assignment,
            BufferAssigner_Run module
              (color_alignment kXlaAllocatedBufferAlignBytes) true
              (chosen_colorer module) = Ok assignment
            ∧ (GetOutputInfo module assignment = CheckFailure
               ∨ ∃ output_info,
                   GetOutputInfo module assignment = Ok output_info
                   ∧ (EmitHloComputation
                        (initial_context module assignment target_triple
                           data_layout platform_name)
                        (entry_computation module) = CheckFailure
                      ∨ ∃ context thunk_sequence,
                          EmitHloComputation
                            (initial_context module assignment target_triple
                               data_layout platform_name)
                            (entry_computation module)
                          = Ok (context, thunk_sequence)
                          ∧ supports_runtime_managed_constants
                              kROCmPlatformId platform_id module = true
                          ∧ RemoveUnusedAndUninitializedGlobals
                              (llvm_module context) (constants context)
                            = CheckFailure)))).
Proof.
  rewrite CompileModuleToLlvmIr_stages.
  destruct (BufferAssigner_Run _ _ _ _) as [a| |]; simpl;
    [|split; split; intros ?; stage_cases; eauto 12..].
  destruct (GetOutputInfo module a) as [oi| |] eqn:Hinfo; simpl;
    [|split; split; intros ?; stage_cases; eauto 12..].
  destruct (EmitHloComputation _ _) as [[ctx thunks]| |] eqn:Hemit; simpl;
    [|split; split; intros ?; stage_cases; eauto 12..].
  pose proof (prune_if_supported_not_status ctx) as Hno.
  unfold prune_if_supported in *.
  destruct (supports_runtime_managed_constants _ _ _); simpl;
    [|split; split; intros ?; stage_cases; eauto 12].
  destruct (RemoveUnusedAndUninitializedGlobals _ _) as [m'|st'|] eqn:Hprune;
    simpl; [| |split; split; intros ?; stage_cases; eauto 15].
  - split; split; intros ?; stage_cases; eauto 12.
  - by destruct (Hno st').
Qed.

(** X14.  Where a failure of the compilation comes from.  It returns a
    status exactly when the data layout parses and the planner,
    [GetOutputInfo] or the emitter returns that status, the earlier stages
    having returned values: the set-up of the module, pruning and the
    clearing of the thunks add no status of their own.  It aborts exactly
    when the data layout does not parse, or one of the three aborts or, all
    three having returned and the target supporting runtime-managed
    constants, the pruning pass fails its [CHECK]. *)
Theorem CompileModuleToLlvmIr_failure_provenance (st : Status) :
  (CompileModuleToLlvmIr_from_entry kXlaAllocatedBufferAlignBytes
     kROCmPlatformId BufferAssigner_Run GetOutputInfo EmitHloComputation
     ClearCompileTimeInfo parses_data_layout module target_triple data_layout
     platform_name platform_id = Error st
   ↔ parses_data_layout data_layout = true
     ∧ (BufferAssigner_Run module
       (color_alignment kXlaAllocatedBufferAlignBytes) true
       (chosen_colorer module) = Error st
     ∨ (∃ assignment,
          BufferAssigner_Run module
            (color_alignment kXlaAllocatedBufferAlignBytes) true
            (chosen_colorer module) = Ok assignment
          ∧ (GetOutputInfo module assignment = Error st
             ∨ ∃ output_info,
                 GetOutputInfo module assignment = Ok output_info
                 ∧ EmitHloComputation
                     (initial_context module assignment target_triple
                        data_layout platform_name)
                     (entry_computation module) = Error st))))
  ∧ (CompileModuleToLlvmIr_from_entry kXlaAllocatedBufferAlignBytes
       kROCmPlatformId BufferAssigner_Run GetOutputInfo EmitHloComputation
       ClearCompileTimeInfo parses_data_layout module target_triple
       data_layout platform_name platform_id = CheckFailure
     ↔ parses_data_layout data_layout = false
       ∨ (BufferAssigner_Run module
         (color_alignment kXlaAllocatedBufferAlignBytes) true
         (chosen_colorer module) = CheckFailure
       ∨ (∃ assignment,
            BufferAssigner_Run module
              (color_alignment kXlaAllocatedBufferAlignBytes) true
              (chosen_colorer module) = Ok assignment
            ∧ (GetOutputInfo module assignment = CheckFailure
               ∨ ∃ output_info,
                   GetOutputInfo module assignment = Ok output_info
                   ∧ (EmitHloComputation
                        (initial_context module assignment target_triple
                           data_layout platform_name)
                        (entry_computation module) = CheckFailure
                      ∨ ∃ context thunk_sequence,
                          EmitHloComputation
                            (initial_context module assignment target_triple
                               data_layout platform_name)
                            (entry_computation module)
                          = Ok (context, thunk_sequence)
                          ∧ supports_runtime_managed_constants
                              kROCmPlatformId platform_id module = true
                          ∧ RemoveUnusedAndUninitializedGlobals
                              (llvm_module context) (constants context)
                            = CheckFailure))))).
Proof.
  unfold CompileModuleToLlvmIr_from_entry, setDataLayout, setTargetTriple.
  destruct (parses_data_layout data_layout); simpl.
  - destruct (CompileModuleToLlvmIr_failure_stages st) as [Hstatus Habort].
    rewrite Hstatus, Habort. split; split.
    + by intros ?.
    + by intros [_ ?].
    + by right.
    + by intros [?|?].
  - split; split.
    + done.
    + by intros [? _].
    + by left.
    + done.
Qed.

(** X15.  Where the results of a compilation come from.  If the compilation
    returns results, the three collaborators returned values, and the
    results are put together from them: the assignment of the planner, the
    output information, the constants of the emitter's context, the shape
    and the name of the module, the thunk sequence of the emitter with
    [ClearCompileTimeInfo] applied to every leaf and every composite thunk in
    its place, and the module of the context, pruned or not. *)
Theorem CompileModuleToLlvmIr_results_provenance
    (results : CompileModuleResults Shape BufferAssignment OutputInfo Op) :
  CompileModuleToLlvmIr kXlaAllocatedBufferAlignBytes kROCmPlatformId
    BufferAssigner_Run GetOutputInfo EmitHloComputation ClearCompileTimeInfo
    module target_triple data_layout platform_name platform_id = Ok results →
  ∃ context thunk_sequence,
    BufferAssigner_Run module (color_alignment kXlaAllocatedBufferAlignBytes)
      true (chosen_colorer module) = Ok (results_buffer_assignment results)
    ∧ GetOutputInfo module (results_buffer_assignment results)
      = Ok (results_output_info results)
    ∧ EmitHloComputation
        (initial_context module (results_buffer_assignment results)
           target_triple data_layout platform_name)
        (entry_computation module) = Ok (context, thunk_sequence)
    ∧ prune_if_supported kROCmPlatformId platform_id module context
      = Ok (results_llvm_module results)
    ∧ results_executable results
      = map_leaves ClearCompileTimeInfo thunk_sequence
    ∧ results_constants results = constants context
    ∧ results_output_shape results = result_shape module
    ∧ results_module_name results = name module
    ∧ results_use_original_allocations results = true.
Proof.
  rewrite CompileModuleToLlvmIr_stages.
  destruct (BufferAssigner_Run _ _ _ _) as [a| |]; simpl; [|done..].
  destruct (GetOutputInfo module a) as [oi| |] eqn:Hinfo; simpl; [|done..].
  destruct (EmitHloComputation _ _) as [[ctx thunks]| |] eqn:Hemit; simpl;
    [|done..].
  destruct (prune_if_supported _ _ _ ctx) as [m'| |] eqn:Hprune; simpl;
    [|done..].
  intros [= <-]. simpl. exists ctx, thunks. split_and!; done.
Qed.

(** X16.  No global is lost without a constant to initialize it from.  When
    the compilation returns results, every global of their module is a global
    the emitter left; and every global the emitter left that is not in the
    module of the results is not of local linkage, is named by a constant of
    the results that carries its content, and was used by nothing but
    initializers of globals that are not in the module of the results
    either. *)
Theorem CompileModuleToLlvmIr_erased_globals_have_constants
    (assignment : BufferAssignment) (output_info : OutputInfo)
    (context : IrEmitterContext Shape HloComputation BufferAssignment)
    (thunk_sequence : list (Thunk Op))
    (results : CompileModuleResults Shape BufferAssignment OutputInfo Op) :
  BufferAssigner_Run module (color_alignment kXlaAllocatedBufferAlignBytes)
    true (chosen_colorer module) = Ok assignment →
  GetOutputInfo module assignment = Ok output_info →
  EmitHloComputation
    (initial_context module assignment target_triple data_layout
       platform_name)
    (entry_computation module) = Ok (context, thunk_sequence) →
  CompileModuleToLlvmIr kXlaAllocatedBufferAlignBytes kROCmPlatformId
    BufferAssigner_Run GetOutputInfo EmitHloComputation ClearCompileTimeInfo
    module target_triple data_layout platform_name platform_id = Ok results →
  (∀ name, is_Some (globals (results_llvm_module results) !! name) →
           is_Some (globals (llvm_module context) !! name))
  ∧ ∀ name global,
      globals (llvm_module context) !! name = Some global →
      globals (results_llvm_module results) !! name = None →
      hasLocalLinkage global = false
      ∧ (∃ info, info ∈ results_constants results
                 ∧ symbol_name info = name ∧ content info ≠ [])
      ∧ ∀ user, user ∈ users global →
          ∃ erased, user = InitializerOf erased
                    ∧ is_Some (globals (llvm_module context) !! erased)
                    ∧ globals (results_llvm_module results) !! erased = None.
Proof.
  intros Hplan Hinfo Hemit. rewrite CompileModuleToLlvmIr_stages.
  rewrite Hplan. simpl. rewrite Hinfo. simpl. rewrite Hemit. simpl.
  unfold prune_if_supported.
  destruct (supports_runtime_managed_constants _ _ _); simpl.
  - destruct (RemoveUnusedAndUninitializedGlobals _ _) as [m'| |] eqn:Hprune;
      simpl; [|done..].
    intros [= <-]. simpl. split.
    + intros name [g' Hg'].
      destruct (RemoveUnusedAndUninitializedGlobals_kept _ _ _ _ _ Hprune Hg')
        as (g & -> & _). by eexists.
    + intros name g Hg Hgone.
      destruct (RemoveUnusedAndUninitializedGlobals_erased _ _ _ _ _
                  Hprune Hg Hgone) as ((info & Hin & Hne & Hname) & Hl & Hu).
      split_and!; [done| |done]. by exists info.
  - intros [= <-]. simpl. split; [done|]. intros name g Hg Hgone.
    by rewrite Hg in Hgone.
Qed.

End CompileModuleToLlvmIr_more.

Lemma CompileModuleToLlvmIr_results_provenance_witness :
  ∃ context thunk_sequence,
    planner shared_constants_module (color_alignment 128%Z) true
      (chosen_colorer shared_constants_module) = Ok 128%Z
    ∧ output_info_of shared_constants_module 128%Z = Ok tt
    ∧ emitter
        (initial_context shared_constants_module 128%Z
           "nvptx64-nvidia-cuda" "e-i64:64" "CUDA")
        (entry_computation shared_constants_module)
      = Ok (context, thunk_sequence)
    ∧ prune_if_supported rocm_platform_id cuda_platform_id
        shared_constants_module context
      = Ok (MkModule "nvptx64-nvidia-cuda" "e-i64:64"
              {["buffer_for_constant_2" := unused_global]})
    ∧ [WhileThunk [LeafThunk (MkKernelOp "condition" None)]
                  [LeafThunk (MkKernelOp "body" None)]]
      = map_leaves clear_kernel thunk_sequence
    ∧ [constant_1; constant_2] = constants context
    ∧ "f32[4]" = result_shape shared_constants_module
    ∧ "module_0001" = name shared_constants_module
    ∧ true = true.
Proof.
  apply (CompileModuleToLlvmIr_results_provenance 128%Z rocm_platform_id
           planner output_info_of emitter clear_kernel
           shared_constants_module "nvptx64-nvidia-cuda" "e-i64:64" "CUDA"
           cuda_platform_id
           {| results_llvm_module :=
                MkModule "nvptx64-nvidia-cuda" "e-i64:64"
                  {["buffer_for_constant_2" := unused_global]};
              results_buffer_assignment := 128%Z;
              results_executable :=
                [WhileThunk [LeafThunk (MkKernelOp "condition" None)]
                            [LeafThunk (MkKernelOp "body" None)]];
              results_constants := [constant_1; constant_2];
              results_output_info := tt;
              results_output_shape := "f32[4]";
              results_module_name := "module_0001";
              results_use_original_allocations := true |}).
  reflexivity.
Defined.

Lemma CompileModuleToLlvmIr_erased_globals_have_constants_witness :
  (∀ name,
     is_Some (globals
                (MkModule "nvptx64-nvidia-cuda" "e-i64:64"
                   {["buffer_for_constant_2" := unused_global]}) !! name) →
     is_Some (globals
                (MkModule "nvptx64-nvidia-cuda" "e-i64:64"
                   (globals emitted_module)) !! name))
  ∧ ∀ name global,
      globals
        (MkModule "nvptx64-nvidia-cuda" "e-i64:64" (globals emitted_module))
        !! name = Some global →
      globals
        (MkModule "nvptx64-nvidia-cuda" "e-i64:64"
           {["buffer_for_constant_2" := unused_global]}) !! name = None →
      hasLocalLinkage global = false
      ∧ (∃ info, info ∈ [constant_1; constant_2]
                 ∧ symbol_name info = name ∧ content info ≠ [])
      ∧ ∀ user, user ∈ users global →
          ∃ erased, user = InitializerOf erased
                    ∧ is_Some (globals
                                 (MkModule "nvptx64-nvidia-cuda" "e-i64:64"
                                    (globals emitted_module)) !! erased)
                    ∧ globals
                        (MkModule "nvptx64-nvidia-cuda" "e-i64:64"
                           {["buffer_for_constant_2" := unused_global]})
                        !! erased = None.
Proof.
  apply (CompileModuleToLlvmIr_erased_globals_have_constants 128%Z
           rocm_platform_id planner output_info_of emitter clear_kernel
           shared_constants_module "nvptx64-nvidia-cuda" "e-i64:64" "CUDA"
           cuda_platform_id 128%Z tt
           (MkContext shared_constants_module 128%Z "CUDA"
              (MkModule "nvptx64-nvidia-cuda" "e-i64:64"
                 (globals emitted_module))
              [constant_1; constant_2])
           emitted_thunks
           {| results_llvm_module :=
                MkModule "nvptx64-nvidia-cuda" "e-i64:64"
                  {["buffer_for_constant_2" := unused_global]};
              results_buffer_assignment := 128%Z;
              results_executable :=
                [WhileThunk [LeafThunk (MkKernelOp "condition" None)]
                            [LeafThunk (MkKernelOp "body" None)]];
              results_constants := [constant_1; constant_2];
              results_output_info := tt;
              results_output_shape := "f32[4]";
              results_module_name := "module_0001";
              results_use_original_allocations := true |}); reflexivity.
Defined.

(** ** Dumping the module after a pass *)

Lemma StrFormat_02d_digits (n : Z) :
  (0 ≤ n)%Z →
  ∃ d, StrFormat_02d n = NilEmpty.string_of_uint d
       ∧ Z.of_N (N.of_uint d) = n.
Proof.
  intros Hn. unfold StrFormat_02d, decimal.
  destruct (Z.ltb_spec n 0) as [|_]; [lia|].
  destruct (n <? 10)%Z.
  - exists (Decimal.D0 (N.to_uint (Z.to_N n))). split; [done|].
    change (N.of_uint (Decimal.D0 ?d)) with (N.of_uint d).
    rewrite DecimalN.Unsigned.of_to. lia.
  - exists (N.to_uint (Z.to_N n)). split; [done|].
    rewrite DecimalN.Unsigned.of_to. lia.
Qed.

(** Digits followed by a dot: the digits are determined. *)
Lemma digits_before_dot (d1 d2 : Decimal.uint) (rest1 rest2 : string) :
  NilEmpty.string_of_uint d1 +:+ String "."%char rest1
  = NilEmpty.string_of_uint d2 +:+ String "."%char rest2 →
  d1 = d2.
Proof.
  revert d2. induction d1 as [|d1 IH|d1 IH|d1 IH|d1 IH|d1 IH|d1 IH|d1 IH
                             |d1 IH|d1 IH|d1 IH];
    intros [|d2|d2|d2|d2|d2|d2|d2|d2|d2|d2]; simpl; intros Heq;
    try discriminate; try done;
    injection Heq as Heq; f_equal; by apply IH.
Qed.

Lemma dump_suffix_of_counter (n m : Z) (a b : string) :
  (0 ≤ n)%Z → (0 ≤ m)%Z →
  dump_suffix_of n a = dump_suffix_of m b → n = m.
Proof.
  intros Hn Hm. unfold dump_suffix_of.
  destruct (StrFormat_02d_digits n Hn) as (d1 & -> & <-).
  destruct (StrFormat_02d_digits m Hm) as (d2 & -> & <-).
  simpl. intros [= Heq]. by rewrite (digits_before_dot _ _ _ _ Heq).
Qed.

Section runAfterPass_facts.
Context (DumpingEnabledForHloPass : string → bool).

Lemma dumped_passes_cons (pass_name module_str : string)
    (rest : list (string * string)) :
  dumped_passes DumpingEnabledForHloPass ((pass_name, module_str) :: rest)
  = if DumpingEnabledForHloPass pass_name
    then (pass_name, module_str)
         :: dumped_passes DumpingEnabledForHloPass rest
    else dumped_passes DumpingEnabledForHloPass rest.
Proof.
  unfold dumped_passes. rewrite filter_cons. simpl.
  destruct (DumpingEnabledForHloPass pass_name); by case_decide.
Qed.

(** What a sequence of calls returns, when it returns. *)
Lemma runAfterPasses_Some (passes : list (string * string)) (counter : Z)
    (dumps : list DumpCall) (self' : DumpAfterPassIfEnabled)
    (dumps' : list DumpCall) :
  runAfterPasses DumpingEnabledForHloPass passes (MkDumper counter) dumps
  = Some (self', dumps') →
  self' = MkDumper
            (counter
             + Z.of_nat (length (dumped_passes DumpingEnabledForHloPass
                                   passes)))
  ∧ dumps' = dumps
             ++ numbered_dumps counter
                  (dumped_passes DumpingEnabledForHloPass passes).
Proof.
  revert counter dumps.
  induction passes as [|[pass_name module_str] rest IH]; intros counter dumps.
  - simpl. intros [= <- <-]. split; [f_equal; lia|by rewrite app_nil_r].
  - rewrite dumped_passes_cons. simpl. unfold runAfterPass. simpl.
    destruct (DumpingEnabledForHloPass pass_name); simpl.
    + destruct (counter <? INT_MAX)%Z; [|done].
      intros [-> ->]%IH. simpl. split; [f_equal; lia|].
      by rewrite <- app_assoc.
    + apply IH.
Qed.

(** A sequence of calls returns while the counter stays an [int]. *)
Lemma runAfterPasses_in_range (passes : list (string * string))
    (counter : Z) (dumps : list DumpCall) :
  (counter
   + Z.of_nat (length (dumped_passes DumpingEnabledForHloPass passes))
   ≤ INT_MAX)%Z →
  is_Some (runAfterPasses DumpingEnabledForHloPass passes (MkDumper counter)
             dumps).
Proof.
  revert counter dumps.
  induction passes as [|[pass_name module_str] rest IH]; intros counter dumps.
  - by eexists.
  - rewrite dumped_passes_cons. simpl. unfold runAfterPass. simpl.
    destruct (DumpingEnabledForHloPass pass_name); simpl.
    + intros Hrange. destruct (Z.ltb_spec counter INT_MAX); [|lia].
      apply IH. lia.
    + apply IH.
Qed.
End runAfterPass_facts.

Lemma numbered_dumps_suffix (first : Z) (passes : list (string * string))
    (suffix : string) :
  suffix ∈ dump_suffix <$> numbered_dumps first passes →
  ∃ counter pass_name,
    (first ≤ counter)%Z ∧ suffix = dump_suffix_of counter pass_name.
Proof.
  revert first. induction passes as [|[pass_name module_str] rest IH];
    intros first; simpl.
  - by intros ?%elem_of_nil.
  - intros [->|Hin]%elem_of_cons.
    + exists first, pass_name. split; [lia|done].
    + destruct (IH _ Hin) as (counter & other & Hle & ->).
      exists counter, other. split; [lia|done].
Qed.

Lemma numbered_dumps_NoDup (first : Z) (passes : list (string * string)) :
  (0 ≤ first)%Z → NoDup (dump_suffix <$> numbered_dumps first passes).
Proof.
  revert first. induction passes as [|[pass_name module_str] rest IH];
    intros first Hfirst; simpl.
  - constructor.
  - constructor; [|apply IH; lia].
    intros (counter & other & Hle & Heq)%numbered_dumps_suffix.
    apply dump_suffix_of_counter in Heq; lia.
Qed.

Lemma string_of_uint_nonempty (d : Decimal.uint) :
  d ≠ Decimal.Nil → (1 ≤ String.length (NilEmpty.string_of_uint d))%nat.
Proof. destruct d; simpl; intros; (done || lia). Qed.

Lemma string_of_uint_two_digits (d : Decimal.uint) :
  (9 < N.of_uint d)%N → (2 ≤ String.length (NilEmpty.string_of_uint d))%nat.
Proof.
  intros Hlarge.
  destruct d as [|d|d|d|d|d|d|d|d|d|d];
    try (destruct d; simpl; try lia; vm_compute in Hlarge; discriminate).
  vm_compute in Hlarge. discriminate.
Qed.

(** The two digits and more of a number that is not negative can be read
    back. *)
Lemma StrFormat_02d_round_trip (n : Z) :
  (0 ≤ n)%Z →
  decimal_value (StrFormat_02d n) = Some n
  ∧ (2 ≤ String.length (StrFormat_02d n))%nat.
Proof.
  intros Hn. split.
  - destruct (StrFormat_02d_digits n Hn) as (d & -> & Hvalue).
    unfold decimal_value. rewrite NilEmpty.usu. simpl. by rewrite Hvalue.
  - unfold StrFormat_02d, decimal.
    destruct (Z.ltb_spec n 0) as [|_]; [lia|].
    destruct (Z.ltb_spec n 10) as [Hsmall|Hlarge].
    + cbn [String.length].
      pose proof (string_of_uint_nonempty (N.to_uint (Z.to_N n))) as Hone.
      assert (N.to_uint (Z.to_N n) ≠ Decimal.Nil) as Hnonnil.
      { destruct (Z.to_N n) as [|p]; [done|]. simpl.
        apply DecimalPos.Unsigned.to_uint_nonnil. }
      specialize (Hone Hnonnil). lia.
    + apply string_of_uint_two_digits.
      rewrite DecimalN.Unsigned.of_to. lia.
Qed.

Lemma list_ascii_of_string_app (s t : string) :
  String.list_ascii_of_string (s +:+ t)
  = String.list_ascii_of_string s ++ String.list_ascii_of_string t.
Proof. induction s as [|c s IH]; simpl; [done|by rewrite IH]. Qed.

Lemma string_app_inv_tail (s1 s2 t : string) :
  s1 +:+ t = s2 +:+ t → s1 = s2.
Proof.
  intros Heq. apply (f_equal String.list_ascii_of_string) in Heq.
  rewrite !list_ascii_of_string_app in Heq. apply app_inv_tail in Heq.
  rewrite <- (String.string_of_list_ascii_of_string s1),
    <- (String.string_of_list_ascii_of_string s2). by rewrite Heq.
Qed.

(** X17.  The suffix of a dump tells which dump it is: two suffixes made
    from counters that are not negative are the same string only if the
    counters are the same and the names of the passes are the same. *)
Theorem dump_suffix_of_injective (n m : Z) (a b : string) :
  (0 ≤ n)%Z → (0 ≤ m)%Z →
  dump_suffix_of n a = dump_suffix_of m b → n = m ∧ a = b.
Proof.
  intros Hn Hm Heq.
  assert (n = m) as <- by (by eapply dump_suffix_of_counter).
  split; [done|]. unfold dump_suffix_of in Heq.
  apply (inj (String.app "pass_")) in Heq.
  apply (inj (String.app (StrFormat_02d n))) in Heq.
  simpl in Heq. injection Heq as Heq.
  exact (string_app_inv_tail a b ".mlir" Heq).
Qed.

Lemma dump_suffix_of_injective_witness :
  3%Z = 3%Z ∧ "Inliner" = "Inliner".
Proof.
  apply (dump_suffix_of_injective 3 3 "Inliner" "Inliner"); (lia || done).
Defined.

(** X18.  A pass for which dumping is not enabled leaves the object and the
    dumps alone.  A pipeline, on an object whose counter stays an [int],
    dumps exactly the passes for which dumping is enabled, in their order,
    after the dumps made before, with the prefix [lower_to_xla_gpu_runtime],
    the module as printed after that pass, and consecutive numbers from the
    counter on; the counter advances by the number of dumps. *)
Theorem runAfterPasses_dumps_enabled_passes
    (DumpingEnabledForHloPass : string → bool)
    (passes : list (string * string)) (counter : Z) (dumps : list DumpCall) :
  (counter
   + Z.of_nat (length (dumped_passes DumpingEnabledForHloPass passes))
   ≤ INT_MAX)%Z →
  runAfterPasses DumpingEnabledForHloPass passes (MkDumper counter) dumps
  = Some (MkDumper
            (counter
             + Z.of_nat (length (dumped_passes DumpingEnabledForHloPass
                                   passes))),
          dumps
          ++ numbered_dumps counter
               (dumped_passes DumpingEnabledForHloPass passes))
  ∧ (∀ pass_name module_str,
       DumpingEnabledForHloPass pass_name = false →
       runAfterPass DumpingEnabledForHloPass pass_name module_str
         (MkDumper counter) dumps = Some (MkDumper counter, dumps)).
Proof.
  intros Hrange. split.
  - destruct (runAfterPasses_in_range DumpingEnabledForHloPass passes counter
                dumps Hrange) as [[self' dumps'] Hrun].
    rewrite Hrun. by apply runAfterPasses_Some in Hrun as [-> ->].
  - intros pass_name module_str Hoff. unfold runAfterPass.
    by rewrite Hoff.
Qed.

Lemma runAfterPasses_dumps_enabled_passes_witness :
  runAfterPasses dump_all_but_canonicalize lowering_pipeline (MkDumper 0) []
  = Some (MkDumper
            (0 + Z.of_nat (length (dumped_passes dump_all_but_canonicalize
                                     lowering_pipeline))),
          []
          ++ numbered_dumps 0
               (dumped_passes dump_all_but_canonicalize lowering_pipeline))
  ∧ (∀ pass_name module_str,
       dump_all_but_canonicalize pass_name = false →
       runAfterPass dump_all_but_canonicalize pass_name module_str
         (MkDumper 0) [] = Some (MkDumper 0, [])).
Proof.
  apply (runAfterPasses_dumps_enabled_passes dump_all_but_canonicalize
           lowering_pipeline 0 []).
  vm_compute. discriminate.
Defined.

(** The dumps of [lowering_pipeline]: three files, numbered 00 to 02. *)
Example runAfterPasses_lowering_pipeline :
  runAfterPasses dump_all_but_canonicalize lowering_pipeline (MkDumper 0) []
  = Some (MkDumper 3,
          [MkDump "lower_to_xla_gpu_runtime"
             "pass_00.after.ConvertLmhloToGpuRuntime.mlir" "module @a";
           MkDump "lower_to_xla_gpu_runtime"
             "pass_01.after.ConvertMemrefGetGlobal.mlir" "module @c";
           MkDump "lower_to_xla_gpu_runtime"
             "pass_02.after.Inliner.mlir" "module @d"]).
Proof. reflexivity. Qed.

(** X19.  No dump of a pipeline overwrites another.  On an object whose
    counter is not negative and with no dump made before, the suffixes of
    the dumps of one sequence of calls are pairwise different, also when a
    pass of the same name runs more than once. *)
Theorem runAfterPasses_suffixes_distinct
    (DumpingEnabledForHloPass : string → bool)
    (passes : list (string * string)) (counter : Z)
    (self' : DumpAfterPassIfEnabled) (dumps' : list DumpCall) :
  (0 ≤ counter)%Z →
  runAfterPasses DumpingEnabledForHloPass passes (MkDumper counter) []
  = Some (self', dumps') →
  NoDup (dump_suffix <$> dumps').
Proof.
  intros Hcounter [_ ->]%runAfterPasses_Some. simpl.
  by apply numbered_dumps_NoDup.
Qed.

Lemma runAfterPasses_suffixes_distinct_witness :
  NoDup (dump_suffix <$>
           [MkDump "lower_to_xla_gpu_runtime"
              "pass_00.after.Inliner.mlir" "module @a";
            MkDump "lower_to_xla_gpu_runtime"
              "pass_01.after.Inliner.mlir" "module @b"]).
Proof.
  apply (runAfterPasses_suffixes_distinct (λ _, true)
           [("Inliner", "module @a"); ("Inliner", "module @b")] 0
           (MkDumper 2)).
  - lia.
  - reflexivity.
Defined.

(** The order of the suffixes of the first hundred dumps, computed. *)
Lemma dump_suffix_order_check (a b : string) :
  forallb (λ i, forallb (λ j,
    if (i <? j)%nat
    then String.ltb (dump_suffix_of (Z.of_nat i) a)
                    (dump_suffix_of (Z.of_nat j) b)
    else true) (seq 0 100)) (seq 0 100) = true.
Proof. vm_compute. reflexivity. Qed.

(** X20.  The two digits keep the files of the first hundred dumps in the
    order of the passes: for counters below 100 the suffix of the smaller
    counter comes first in the order of strings, whatever the names of the
    passes.  From 100 on this fails: the suffix of counter 100 comes before
    that of counter 99. *)
Theorem dump_suffix_of_sorted_below_100 (n m : Z) (a b : string) :
  (0 ≤ n < m)%Z → (m < 100)%Z →
  String.ltb (dump_suffix_of n a) (dump_suffix_of m b) = true
  ∧ String.ltb (dump_suffix_of 100 a) (dump_suffix_of 99 b) = true.
Proof.
  intros Hn Hm. split; [|by vm_compute].
  pose proof (dump_suffix_order_check a b) as Hall.
  rewrite forallb_forall in Hall.
  specialize (Hall (Z.to_nat n)). rewrite forallb_forall in Hall.
  specialize (Hall ltac:(apply in_seq; lia) (Z.to_nat m)
                ltac:(apply in_seq; lia)).
  destruct (Nat.ltb_spec (Z.to_nat n) (Z.to_nat m)); [|lia].
  by rewrite !Z2Nat.id in Hall by lia.
Qed.

Lemma dump_suffix_of_sorted_below_100_witness :
  String.ltb (dump_suffix_of 9 "Inliner") (dump_suffix_of 10 "Canonicalizer")
  = true
  ∧ String.ltb (dump_suffix_of 100 "Inliner")
      (dump_suffix_of 99 "Canonicalizer") = true.
Proof.
  apply (dump_suffix_of_sorted_below_100 9 10 "Inliner" "Canonicalizer"); lia.
Defined.

(** ** FP8 detection *)

(** X21.  [HasFp8] answers [true] exactly when some instruction of some
    computation of the module has a shape in which
    [ShapeUtil::HasPrimitiveType] finds one of the five FP8 types; on a
    module without computations, or whose computations have no instructions,
    it answers [false]. *)
Theorem HasFp8_iff
    {HloModuleT HloComputationT HloInstructionT ShapeT PrimitiveType : Type}
    (computations : HloModuleT → list HloComputationT)
    (instructions : HloComputationT → list HloInstructionT)
    (shape : HloInstructionT → ShapeT)
    (F8E5M2 F8E5M2FNUZ F8E4M3FN F8E4M3B11FNUZ F8E4M3FNUZ : PrimitiveType)
    (HasPrimitiveType : ShapeT → PrimitiveType → bool)
    (hlo_module : HloModuleT) :
  (HasFp8 computations instructions shape F8E5M2 F8E5M2FNUZ F8E4M3FN
     F8E4M3B11FNUZ F8E4M3FNUZ HasPrimitiveType hlo_module = true
   ↔ ∃ computation instruction type,
       computation ∈ computations hlo_module
       ∧ instruction ∈ instructions computation
       ∧ type ∈ [F8E5M2; F8E5M2FNUZ; F8E4M3FN; F8E4M3B11FNUZ; F8E4M3FNUZ]
       ∧ HasPrimitiveType (shape instruction) type = true)
  ∧ (Forall (λ computation, instructions computation = [])
       (computations hlo_module) →
     HasFp8 computations instructions shape F8E5M2 F8E5M2FNUZ F8E4M3FN
       F8E4M3B11FNUZ F8E4M3FNUZ HasPrimitiveType hlo_module = false).
Proof.
  unfold HasFp8. split.
  - rewrite existsb_exists. split.
    + intros (c & Hc%list_elem_of_In & (i & Hi%list_elem_of_In & Hfp8)
              %existsb_exists).
      unfold has_fp8_shape in Hfp8. rewrite !orb_true_iff in Hfp8.
      destruct Hfp8 as [[[[H|H]|H]|H]|H]; eexists c, i, _;
        (split_and!; [done|done| |exact H]);
        rewrite !elem_of_cons; auto 10.
    + intros (c & i & type & Hc & Hi & Htype & Hhas).
      exists c. split; [by apply list_elem_of_In|].
      apply existsb_exists. exists i. split; [by apply list_elem_of_In|].
      unfold has_fp8_shape. rewrite !orb_true_iff.
      rewrite !elem_of_cons in Htype.
      destruct Htype as [->|[->|[->|[->|[->|[]%elem_of_nil]]]]]; auto 10.
  - induction 1 as [|c rest Hc _ IH]; [done|].
    simpl. by rewrite Hc, IH.
Qed.

(** ** Attributes of the entry function *)

(** X22.  On a module whose entry function exists, [ForwardCollectiveAttrs]
    returns the module with that function changed and every other symbol as
    it was; of the function it sets [replica_count] and [num_partitions] to
    the numbers of the configuration, whatever they were before, and leaves
    every other attribute; and a second call replaces what the first one
    set, so that only the last configuration shows. *)
Theorem ForwardCollectiveAttrs_sets_two_attrs
    (module : gmap string SymbolOp) (entry_function_name : string)
    (attrs : gmap string Attribute) (replica_count num_partitions : Z) :
  lookupFunc module entry_function_name = Some attrs →
  ∃ module' attrs',
    ForwardCollectiveAttrs module entry_function_name replica_count
      num_partitions = Some module'
    ∧ lookupFunc module' entry_function_name = Some attrs'
    ∧ attrs' !! "replica_count" = Some (I64IntegerAttr replica_count)
    ∧ attrs' !! "num_partitions" = Some (I64IntegerAttr num_partitions)
    ∧ (∀ key, key ≠ "replica_count" → key ≠ "num_partitions" →
              attrs' !! key = attrs !! key)
    ∧ (∀ other, other ≠ entry_function_name →
                module' !! other = module !! other)
    ∧ (∀ replica_count' num_partitions',
         ForwardCollectiveAttrs module' entry_function_name replica_count'
           num_partitions'
         = ForwardCollectiveAttrs module entry_function_name replica_count'
             num_partitions').
Proof.
  intros Hfunc. unfold ForwardCollectiveAttrs. rewrite Hfunc.
  eexists _, _. split; [done|]. split_and!.
  - unfold lookupFunc. by rewrite lookup_insert_eq.
  - by rewrite lookup_insert_ne, lookup_insert_eq.
  - by rewrite lookup_insert_eq.
  - intros key Hr Hn. by rewrite !lookup_insert_ne.
  - intros other Hother. by rewrite lookup_insert_ne.
  - intros rc np. unfold lookupFunc at 1. rewrite lookup_insert_eq.
    rewrite insert_insert_eq. do 3 f_equal.
    apply map_eq. intros key.
    destruct (decide (key = "num_partitions")) as [->|Hn];
      [by rewrite !lookup_insert_eq|].
    rewrite !(lookup_insert_ne _ "num_partitions") by done.
    destruct (decide (key = "replica_count")) as [->|Hr];
      [by rewrite !lookup_insert_eq|].
    by rewrite !lookup_insert_ne.
Qed.

Lemma ForwardCollectiveAttrs_sets_two_attrs_witness :
  ∃ module' attrs',
    ForwardCollectiveAttrs gpu_module "main" 2 4 = Some module'
    ∧ lookupFunc module' "main" = Some attrs'
    ∧ attrs' !! "replica_count" = Some (I64IntegerAttr 2)
    ∧ attrs' !! "num_partitions" = Some (I64IntegerAttr 4)
    ∧ (∀ key, key ≠ "replica_count" → key ≠ "num_partitions" →
              attrs' !! key
              = (<["replica_count" := I64IntegerAttr 1]>
                   (<["sym_visibility" := OtherAttr "public"]> ∅)
                 : gmap string Attribute) !! key)
    ∧ (∀ other, other ≠ "main" → module' !! other = gpu_module !! other)
    ∧ (∀ replica_count' num_partitions',
         ForwardCollectiveAttrs module' "main" replica_count'
           num_partitions'
         = ForwardCollectiveAttrs gpu_module "main" replica_count'
             num_partitions').
Proof.
  apply (ForwardCollectiveAttrs_sets_two_attrs gpu_module "main"
           (<["replica_count" := I64IntegerAttr 1]>
              (<["sym_visibility" := OtherAttr "public"]> ∅)) 2 4).
  reflexivity.
Defined.
